(** * promptui/cursor.go: the cursor-tracking text buffer

    A shallow embedding of [cursor.go] (package promptui) and the
    properties of its caret/buffer bookkeeping.

    Conventions of the embedding

    - Go's [int] is a 64-bit two's-complement integer: it is a [Z], and
      every [+] and [-] the source performs on an [int] goes through
      [wrap_int].  [len] of a slice never wraps (a slice cannot be longer
      than [max_int]); theorems that depend on it say so with [fits_int].
    - A [rune] is a [Z] (Go's int32).
    - A Go [string] is a sequence of bytes: Rocq's [string].  The
      conversions [[]rune(s)] and [string(r)] are the UTF-8 decoder and
      encoder of the Go runtime ([decoderune], [encoderune]).
    - A [[]rune] is a [list rune].  Every slice the cursor stores was
      either freshly allocated or is written only through the cursor,
      and [append]'s in-place writes never read a cell they already
      overwrote (the right operand of the outer [append] in [Update] is a
      fresh array, the one in [Backspace] is moved left by one), so value
      semantics lose nothing.  Capacity is not modelled: a slice bound
      above [len] counts as out of range (see [slice_to]).
    - A run-time panic (slice bounds out of range, call of a nil func) is
      [None]; methods with a pointer receiver return the new cursor. *)

From Stdlib Require Import ZArith String Ascii Bool Lia List.
From Stdlib Require DecimalString.
Import ListNotations.

Local Open Scope Z_scope.

(* ================================================================= *)
(** ** Machine integers *)

Definition max_int : Z := 2 ^ 63 - 1.
Definition min_int : Z := - 2 ^ 63.

(** Two's-complement wrap-around of a 64-bit [int] result. *)
Definition wrap_int (z : Z) : Z := (z + 2 ^ 63) mod 2 ^ 64 - 2 ^ 63.

(** Conversion [byte(x)]: the low eight bits. *)
Definition to_byte (z : Z) : Z := z mod 256.

Definition rune := Z.

(** [len(a)] for a slice. *)
Definition len {A : Type} (a : list A) : Z := Z.of_nat (length a).

(** A slice whose length is a Go [int] (true of every slice at run time). *)
Definition fits_int {A : Type} (a : list A) : Prop := len a <= max_int.

(* ================================================================= *)
(** ** Panics *)

Notation "x <- e ;; k" :=
  (match e with Some x => k | None => None end)
  (at level 61, e at next level, right associativity, only parsing).

(* ================================================================= *)
(** ** Slices *)

(** [a[:hi]].  Go allows [hi] up to [cap(a)]; the model stops at [len(a)].
    Wherever the source writes [a[:i]] or [a[:i-1]] with an index that
    could exceed [len(a)], the same statement also evaluates [a[i:]],
    which panics for such an index, so both agree on the outcome. *)
Definition slice_to {A : Type} (a : list A) (hi : Z) : option (list A) :=
  if (0 <=? hi) && (hi <=? len a) then Some (firstn (Z.to_nat hi) a) else None.

(** [a[lo:]]. *)
Definition slice_from {A : Type} (a : list A) (lo : Z) : option (list A) :=
  if (0 <=? lo) && (lo <=? len a) then Some (skipn (Z.to_nat lo) a) else None.

(** [a[lo:hi]]. *)
Definition slice {A : Type} (a : list A) (lo hi : Z) : option (list A) :=
  if (0 <=? lo) && (lo <=? hi) && (hi <=? len a)
  then Some (firstn (Z.to_nat (hi - lo)) (skipn (Z.to_nat lo) a))
  else None.

(** [make([]rune, n)]: [n] zero runes. *)
Definition make_runes (n : Z) : list rune := repeat 0 (Z.to_nat n).

(** [r[i] = v] for an index in range (the only use is inside a [range]
    loop over [r] itself). *)
Fixpoint set_index (r : list rune) (i : nat) (v : rune) : list rune :=
  match r, i with
  | [], _ => []
  | _ :: t, O => v :: t
  | x :: t, S j => x :: set_index t j v
  end.

(** [copy(dst, src)]: the first [min(len(dst), len(src))] cells of [dst]
    are overwritten. *)
Definition copy_runes (dst src : list rune) : list rune :=
  let n := Nat.min (length dst) (length src) in
  firstn n src ++ skipn n dst.

(* ================================================================= *)
(** ** UTF-8: the conversions between [string] and [[]rune] *)

Module utf8.

Definition runeError : rune := 0xFFFD.
Definition maxRune : rune := 0x10FFFF.
Definition surrogateMin : rune := 0xD800.
Definition surrogateMax : rune := 0xDFFF.
Definition rune1Max : rune := 0x7F.
Definition rune2Max : rune := 0x7FF.
Definition rune3Max : rune := 0xFFFF.

Definition runeSelf : Z := 0x80.
Definition tx : Z := 0x80.
Definition t2 : Z := 0xC0.
Definition t3 : Z := 0xE0.
Definition t4 : Z := 0xF0.
Definition t5 : Z := 0xF8.
Definition maskx : Z := 0x3F.
Definition mask2 : Z := 0x1F.
Definition mask3 : Z := 0x0F.
Definition mask4 : Z := 0x07.
Definition locb : Z := 0x80.
Definition hicb : Z := 0xBF.

(** A Unicode scalar value: what a Go string can carry. *)
Definition valid_rune (r : rune) : Prop :=
  0 <= r <= maxRune /\ ~ (surrogateMin <= r <= surrogateMax).

Definition valid_runeb (r : rune) : bool :=
  (0 <=? r) && (r <=? maxRune)
  && negb ((surrogateMin <=? r) && (r <=? surrogateMax)).

(** [encoderune]: the bytes of one rune.  The runtime switches on
    [uint32(r)], under which a negative rune is above [maxRune]; here
    the sign test is written out. *)
Definition encoderune (r : rune) : list Z :=
  if (0 <=? r) && (r <=? rune1Max) then
    [to_byte r]
  else if (0 <=? r) && (r <=? rune2Max) then
    [Z.lor t2 (to_byte (Z.shiftr r 6));
     Z.lor tx (Z.land (to_byte r) maskx)]
  else
    let r3 :=
      if (r <? 0) || (maxRune <? r)
         || ((surrogateMin <=? r) && (r <=? surrogateMax))
      then Some runeError
      else if r <=? rune3Max then Some r else None in
    match r3 with
    | Some r =>
        [Z.lor t3 (to_byte (Z.shiftr r 12));
         Z.lor tx (Z.land (to_byte (Z.shiftr r 6)) maskx);
         Z.lor tx (Z.land (to_byte r) maskx)]
    | None =>
        [Z.lor t4 (to_byte (Z.shiftr r 18));
         Z.lor tx (Z.land (to_byte (Z.shiftr r 12)) maskx);
         Z.lor tx (Z.land (to_byte (Z.shiftr r 6)) maskx);
         Z.lor tx (Z.land (to_byte r) maskx)]
    end.

(** [encoderune] over a slice of runes: the bytes of [string(r)]. *)
Definition encode (r : list rune) : list Z := flat_map encoderune r.

(** A continuation byte. *)
Definition cont (b : Z) : bool := (locb <=? b) && (b <=? hicb).

(** [decoderune]: the rune that starts at a non-ASCII byte [b0] followed
    by the bytes [p1], and how many of the bytes of [p1] belong to it.  A
    byte that starts no well-formed sequence yields [runeError] and is
    passed alone. *)
Definition decoderune (b0 : Z) (p1 : list Z) : rune * nat :=
  let bad := (runeError, 0%nat) in
  if (t2 <=? b0) && (b0 <? t3) then
    match p1 with
    | b1 :: _ =>
        if cont b1 then
          let r := Z.lor (Z.shiftl (Z.land b0 mask2) 6) (Z.land b1 maskx) in
          if rune1Max <? r then (r, 1%nat) else bad
        else bad
    | _ => bad
    end
  else if (t3 <=? b0) && (b0 <? t4) then
    match p1 with
    | b1 :: b2 :: _ =>
        if cont b1 && cont b2 then
          let r := Z.lor (Z.lor (Z.shiftl (Z.land b0 mask3) 12)
                                (Z.shiftl (Z.land b1 maskx) 6))
                         (Z.land b2 maskx) in
          if (rune2Max <? r)
             && negb ((surrogateMin <=? r) && (r <=? surrogateMax))
          then (r, 2%nat) else bad
        else bad
    | _ => bad
    end
  else if (t4 <=? b0) && (b0 <? t5) then
    match p1 with
    | b1 :: b2 :: b3 :: _ =>
        if cont b1 && cont b2 && cont b3 then
          let r := Z.lor (Z.lor (Z.lor (Z.shiftl (Z.land b0 mask4) 18)
                                       (Z.shiftl (Z.land b1 maskx) 12))
                                (Z.shiftl (Z.land b2 maskx) 6))
                         (Z.land b3 maskx) in
          if (rune3Max <? r) && (r <=? maxRune) then (r, 3%nat) else bad
        else bad
    | _ => bad
    end
  else bad.

(** The loop [for _, r := range s] of [[]rune(s)] over the bytes of the
    string: an ASCII byte is its own rune, anything else goes through
    [decoderune]; [skip] counts the bytes of the current rune still to
    pass. *)
Fixpoint decode_loop (skip : nat) (p : list Z) : list rune :=
  match p with
  | [] => []
  | b0 :: p1 =>
      match skip with
      | S k => decode_loop k p1
      | O =>
          if b0 <? runeSelf then b0 :: decode_loop 0 p1
          else
            let (r, w) := decoderune b0 p1 in
            r :: decode_loop w p1
      end
  end.

Definition decode (p : list Z) : list rune := decode_loop 0 p.

(** What a [byte] holds. *)
Definition is_byte (b : Z) : Prop := 0 <= b < 256.

(** A Go string as its bytes, and back. *)
Definition byte_of_ascii (c : ascii) : Z := Z.of_N (N_of_ascii c).
Definition ascii_of_byte (b : Z) : ascii := ascii_of_N (Z.to_N b).

Fixpoint bytes_of_string (s : string) : list Z :=
  match s with
  | EmptyString => []
  | String c t => byte_of_ascii c :: bytes_of_string t
  end.

Fixpoint string_of_bytes (l : list Z) : string :=
  match l with
  | [] => EmptyString
  | b :: t => String (ascii_of_byte b) (string_of_bytes t)
  end.

(** [string(r)] for [r []rune]. *)
Definition string_of_runes (r : list rune) : string :=
  string_of_bytes (encode r).

(** [[]rune(s)]. *)
Definition runes_of_string (s : string) : list rune :=
  decode (bytes_of_string s).

(** [len(s)] for a string: its number of bytes. *)
Definition len_string (s : string) : Z := Z.of_nat (String.length s).

End utf8.

Import utf8.

(* ================================================================= *)
(** ** The markers ([Pointer]) *)

(** [type Pointer func(to []rune) []rune].  The embedding takes a marker
    to be a function of the runes it is given (it does not write through
    the slice it receives). *)
Definition Pointer : Type := list rune -> list rune.

(** The string literal ["\u2588"] (the full block): the three bytes
    E2 96 88. *)
Definition block_glyph : string :=
  String "226"%char (String "150"%char (String "136"%char EmptyString)).

Definition defaultCursor (ignored : list rune) : list rune :=
  runes_of_string block_glyph.

(** [fmt.Sprintf("\\e[7m%s\\e[0m", s)]: the Go literal ["\\e[7m"] is the
    five characters backslash, e, bracket, 7, m; [%s] copies the bytes. *)
Definition sprintf_block (s : string) : string :=
  ("\e[7m" ++ s ++ "\e[0m")%string.

Definition blockCursor (input : list rune) : list rune :=
  runes_of_string (sprintf_block (string_of_runes input)).

Definition pipeCursor (input : list rune) : list rune :=
  let marker := runes_of_string "|" in
  let out := [] in
  let out := out ++ marker in
  let out := out ++ input in
  out.

Definition DefaultCursor : Pointer := defaultCursor.
Definition BlockCursor : Pointer := blockCursor.
Definition PipeCursor : Pointer := pipeCursor.

(* ================================================================= *)
(** ** The cursor *)

(** [type Cursor struct].  The field [Cursor] (here [Cursor']) may be nil
    in a cursor that was not built by [NewCursor]. *)
Record Cursor : Type := mkCursor {
  Cursor' : option Pointer;
  Input : list rune;
  Position : Z;
  erase : bool
}.

Definition set_Position (c : Cursor) (p : Z) : Cursor :=
  mkCursor (Cursor' c) (Input c) p (erase c).
Definition set_Input (c : Cursor) (a : list rune) : Cursor :=
  mkCursor (Cursor' c) a (Position c) (erase c).
Definition set_erase (c : Cursor) (e : bool) : Cursor :=
  mkCursor (Cursor' c) (Input c) (Position c) e.

(** Calling a func value; a nil func panics. *)
Definition call (f : option Pointer) (x : list rune) : option (list rune) :=
  match f with Some g => Some (g x) | None => None end.

Definition correctPosition (c : Cursor) : Cursor :=
  let c := if Position c >? len (Input c)
           then set_Position c (len (Input c)) else c in
  if Position c <? 0 then set_Position c 0 else c.

Definition Place (c : Cursor) (position : Z) : Cursor :=
  correctPosition (set_Position c position).

Definition Move (c : Cursor) (shift : Z) : Cursor :=
  correctPosition (set_Position c (wrap_int (Position c + shift))).

Definition End (c : Cursor) : Cursor := Place c (len (Input c)).

Definition Start (c : Cursor) : Cursor := Place c 0.

Definition NewCursor (startingInput : string) (pointer : option Pointer)
    (eraseDefault : bool) : Cursor :=
  let pointer := match pointer with None => defaultCursor | Some p => p end in
  let cur := {| Cursor' := Some pointer;
                Position := len_string startingInput;
                Input := runes_of_string startingInput;
                erase := eraseDefault |} in
  if eraseDefault then Start cur else End cur.

(** [format(a, c)]: the slice expressions and the marker call are
    evaluated in the order of the source. *)
Definition format (a : list rune) (c : Cursor) : option string :=
  let i := Position c in
  let out := [] in
  if i <? len a then
    under <- slice a i (wrap_int (i + 1)) ;;
    b <- call (Cursor' c) under ;;
    pre <- slice_to a i ;;
    let out := out ++ pre in
    let out := out ++ b in
    post <- slice_from a (wrap_int (i + 1)) ;;
    let out := out ++ post in
    Some (string_of_runes out)
  else
    b <- call (Cursor' c) [] ;;
    let out := out ++ a in
    let out := out ++ b in
    Some (string_of_runes out).

Definition Format (c : Cursor) : option string :=
  let r := Input c in
  format r c.

(** [for i := range r { r[i] = mask }]. *)
Definition fill_mask (r : list rune) (mask : rune) : list rune :=
  fold_left (fun r i => set_index r i mask) (seq 0 (length r)) r.

Definition FormatMask (c : Cursor) (mask : rune) : option string :=
  let r := make_runes (len (Input c)) in
  let r := fill_mask r mask in
  format r c.

Definition Update (c : Cursor) (newInput : string) : option Cursor :=
  let a := Input c in
  let b := runes_of_string newInput in
  let i := Position c in
  pre <- slice_to a i ;;
  post <- slice_from a i ;;
  let a := pre ++ (b ++ post) in
  let c := set_Input c a in
  Some (Move c (len b)).

Definition Get (c : Cursor) : string :=
  let o := make_runes (len (Input c)) in
  let o := copy_runes o (Input c) in
  string_of_runes o.

Definition Replace (c : Cursor) (input : string) : Cursor :=
  End (set_Input c (runes_of_string input)).

Definition Backspace (c : Cursor) : option Cursor :=
  let a := Input c in
  let i := Position c in
  if i =? 0 then Some c
  else
    c <- (if i =? len a then
            pre <- slice_to a (wrap_int (i - 1)) ;;
            Some (set_Input c pre)
          else
            pre <- slice_to a (wrap_int (i - 1)) ;;
            post <- slice_from a i ;;
            Some (set_Input c (pre ++ post))) ;;
    Some (Move c (-1)).

(** The key codes [KeyEnter], [KeyBackspace], [KeyForward], [KeyBackward]
    are constants of the package declared in another file (per platform);
    the listener is parametrised by them. *)
Record KeyCodes : Type := mkKeyCodes {
  KeyEnter : rune;
  KeyBackspace : rune;
  KeyForward : rune;
  KeyBackward : rune
}.

(** The four key constants and [0] label the cases of one [switch]; the
    compiler rejects duplicate constant cases. *)
Definition keys_distinct (K : KeyCodes) : Prop :=
  NoDup [0; KeyEnter K; KeyBackspace K; KeyForward K; KeyBackward K].

(** A key that reaches the [default] case. *)
Definition other_key (K : KeyCodes) (key : rune) : Prop :=
  ~ In key [0; KeyEnter K; KeyBackspace K; KeyForward K; KeyBackward K].

(** What [Listen] returns: the line, the position and the flag. *)
Definition reply : Type := (list rune * Z * bool)%type.

(** [string(line)] for a possibly nil [line]. *)
Definition string_of_line (line : option (list rune)) : string :=
  match line with Some l => string_of_runes l | None => EmptyString end.

(** How the [switch] of [Listen] is left: by falling out of it with the
    cursor, or by the [return] inside the [KeyEnter] case. *)
Inductive flow : Type :=
| FallOut (c : Cursor)
| Return (c : Cursor) (out : reply).

Definition Listen (K : KeyCodes) (c : Cursor) (line : option (list rune))
    (pos : Z) (key : rune) : option (Cursor * reply) :=
  c <- match line with
       | Some _ =>
           (* no matter what, update our internal representation. *)
           Update c (string_of_line line)
       | None => Some c
       end ;;
  f <- (if key =? 0 then Some (FallOut c)
        else if key =? KeyEnter K then
          Some (Return c (runes_of_string (Get c), Position c, false))
        else if key =? KeyBackspace K then
          let c := if erase c then Replace (set_erase c false) "" else c in
          c <- Backspace c ;;
          Some (FallOut c)
        else if key =? KeyForward K then
          let c := set_erase c false in
          Some (FallOut (Move c 1))
        else if key =? KeyBackward K then
          Some (FallOut (Move c (-1)))
        else
          if erase c then
            let c := set_erase c false in
            c <- Update c (string_of_line line) ;;
            Some (FallOut c)
          else Some (FallOut c)) ;;
  match f with
  | Return c out => Some (c, out)
  | FallOut c => Some (c, (runes_of_string (Get c), Position c, true))
  end.

(** The first step of [Listen], on its own: the line, when there is one,
    is inserted at the position. *)
Definition reconcile (c : Cursor) (line : option (list rune))
  : option Cursor :=
  match line with
  | Some _ => Update c (string_of_line line)
  | None => Some c
  end.

(** The last statement of [Listen], on its own: the reply of every case
    but [KeyEnter]. *)
Definition carry_on (c : Cursor) : Cursor * reply :=
  (c, (runes_of_string (Get c), Position c, true)).

(** One instance of the key codes, for evaluating the listener on
    concrete events: carriage return, DEL, ctrl-F and ctrl-B. *)
Definition sample_keys : KeyCodes := mkKeyCodes 13 127 6 2.

(* ================================================================= *)
(** ** Sequences of calls *)

(** A call of one of the mutating methods of a cursor. *)
Inductive op : Type :=
| OpPlace (position : Z)
| OpMove (shift : Z)
| OpStart
| OpEnd
| OpUpdate (newInput : string)
| OpReplace (input : string)
| OpBackspace
| OpListen (line : option (list rune)) (pos : Z) (key : rune).

Definition apply_op (K : KeyCodes) (c : Cursor) (o : op) : option Cursor :=
  match o with
  | OpPlace position => Some (Place c position)
  | OpMove shift => Some (Move c shift)
  | OpStart => Some (Start c)
  | OpEnd => Some (End c)
  | OpUpdate newInput => Update c newInput
  | OpReplace input => Some (Replace c input)
  | OpBackspace => Backspace c
  | OpListen line pos key =>
      r <- Listen K c line pos key ;; Some (fst r)
  end.

Fixpoint run (K : KeyCodes) (ops : list op) (c : Cursor) : option Cursor :=
  match ops with
  | [] => Some c
  | o :: rest => c <- apply_op K c o ;; run K rest c
  end.

(* ================================================================= *)
(** ** Predicates on cursors *)

(** The position invariant. *)
Definition position_ok (c : Cursor) : Prop :=
  0 <= Position c <= len (Input c).

(** The buffer holds characters a string can carry. *)
Definition runes_ok (c : Cursor) : Prop := Forall valid_rune (Input c).

(** Clamping into [[lo, hi]] as [correctPosition] performs it. *)
Definition clamp (hi z : Z) : Z := Z.max 0 (Z.min z hi).

(** Every buffer along a run is a slice, that is, has a length that fits
    an [int]. *)
Fixpoint run_fits (K : KeyCodes) (ops : list op) (c : Cursor) : Prop :=
  fits_int (Input c) /\
  match ops with
  | [] => True
  | o :: rest =>
      forall c', apply_op K c o = Some c' -> run_fits K rest c'
  end.

(** [Backspace], [n] times in a row. *)
Fixpoint Backspace_n (n : nat) (c : Cursor) : option Cursor :=
  match n with
  | O => Some c
  | S k => c <- Backspace c ;; Backspace_n k c
  end.

(** [fmt.Sprintf("Cursor: %s, Input %s, Position %d", cur, input, position)]:
    [%s] copies the bytes of a string, [%d] prints an [int] in decimal,
    with a minus sign when it is negative. *)
Definition sprintf_cursor (cur input : string) (position : Z) : string :=
  ("Cursor: " ++ cur ++ ", Input " ++ input ++ ", Position "
   ++ DecimalString.NilZero.string_of_int (Z.to_int position))%string.

(** The method [String] of a cursor (the name [String] is taken by the
    constructor of strings).  The marker is called first, on the empty
    slice. *)
Definition Cursor_String (c : Cursor) : option string :=
  b <- call (Cursor' c) (runes_of_string "") ;;
  Some (sprintf_cursor (string_of_runes b) (string_of_runes (Input c))
                       (Position c)).

(** What a string round trip does to one rune. *)
Definition sanitize (r : rune) : rune :=
  if valid_runeb r then r else runeError.

(* ================================================================= *)
(** ** Integers and slices *)

Lemma wrap_int_small (z : Z) : min_int <= z <= max_int -> wrap_int z = z.
Proof.
  unfold min_int, max_int, wrap_int. intros H.
  rewrite Z.mod_small; lia.
Qed.

Lemma wrap_int_range (z : Z) : min_int <= wrap_int z <= max_int.
Proof.
  unfold min_int, max_int, wrap_int.
  pose proof (Z.mod_pos_bound (z + 2 ^ 63) (2 ^ 64) ltac:(lia)). lia.
Qed.

Lemma len_nonneg {A : Type} (a : list A) : 0 <= len a.
Proof. unfold len. lia. Qed.

Lemma len_app {A : Type} (a b : list A) : len (a ++ b) = len a + len b.
Proof. unfold len. rewrite length_app. lia. Qed.

Lemma len_nil {A : Type} : len (@nil A) = 0.
Proof. reflexivity. Qed.

Lemma slice_to_in_range {A : Type} (a : list A) (i : Z) :
  0 <= i <= len a -> slice_to a i = Some (firstn (Z.to_nat i) a).
Proof.
  intros [H0 H1]. unfold slice_to.
  apply Z.leb_le in H0, H1. now rewrite H0, H1.
Qed.

Lemma slice_from_in_range {A : Type} (a : list A) (i : Z) :
  0 <= i <= len a -> slice_from a i = Some (skipn (Z.to_nat i) a).
Proof.
  intros [H0 H1]. unfold slice_from.
  apply Z.leb_le in H0, H1. now rewrite H0, H1.
Qed.

Lemma slice_in_range {A : Type} (a : list A) (lo hi : Z) :
  0 <= lo <= hi -> hi <= len a ->
  slice a lo hi = Some (firstn (Z.to_nat (hi - lo)) (skipn (Z.to_nat lo) a)).
Proof.
  intros [H0 H1] H2. unfold slice.
  apply Z.leb_le in H0, H1, H2. now rewrite H0, H1, H2.
Qed.

Lemma slice_to_out_of_range {A : Type} (a : list A) (i : Z) :
  i < 0 \/ len a < i -> slice_to a i = None.
Proof.
  intros H. unfold slice_to.
  destruct (Z.leb_spec 0 i), (Z.leb_spec i (len a)); simpl; auto; lia.
Qed.

Lemma slice_from_out_of_range {A : Type} (a : list A) (i : Z) :
  i < 0 \/ len a < i -> slice_from a i = None.
Proof.
  intros H. unfold slice_from.
  destruct (Z.leb_spec 0 i), (Z.leb_spec i (len a)); simpl; auto; lia.
Qed.

(** One cell of a slice: [a[i:i+1]] is the element at [i]. *)
Lemma firstn_1_skipn {A : Type} (a : list A) (n : nat) (x : A) :
  nth_error a n = Some x -> firstn 1 (skipn n a) = [x].
Proof.
  revert a. induction n as [|n IH]; intros [|y a] H; simpl in *;
    try discriminate.
  - now inversion H.
  - now apply IH.
Qed.

Lemma skipn_S_nth {A : Type} (a : list A) (n : nat) (x : A) :
  nth_error a n = Some x -> skipn n a = x :: skipn (S n) a.
Proof.
  revert a. induction n as [|n IH]; intros [|y a] H; simpl in *;
    try discriminate.
  - now inversion H.
  - now apply IH.
Qed.

Lemma nth_error_in_range {A : Type} (a : list A) (i : Z) :
  0 <= i < len a -> exists x, nth_error a (Z.to_nat i) = Some x.
Proof.
  unfold len. intros H.
  destruct (nth_error a (Z.to_nat i)) as [x|] eqn:E; [now exists x|].
  apply nth_error_None in E. lia.
Qed.

(** The loop of [FormatMask] leaves [len] copies of the mask. *)
Lemma set_index_fill (pre : list rune) (x : rune) (post : list rune)
    (mask : rune) :
  set_index (pre ++ x :: post) (length pre) mask = pre ++ mask :: post.
Proof. induction pre as [|y pre IH]; simpl; [reflexivity | now rewrite IH]. Qed.

Lemma fill_mask_from (mask : rune) (rest : list rune) (done : nat) :
  fold_left (fun r i => set_index r i mask)
            (seq done (length rest)) (repeat mask done ++ rest)
  = repeat mask (done + length rest).
Proof.
  revert done. induction rest as [|x rest IH]; intros done; simpl.
  - now rewrite app_nil_r, Nat.add_0_r.
  - pose proof (set_index_fill (repeat mask done) x rest mask) as E.
    rewrite repeat_length in E. rewrite E.
    replace (repeat mask done ++ mask :: rest)
      with (repeat mask (S done) ++ rest).
    + rewrite IH. f_equal. lia.
    + change (repeat mask (S done)) with (mask :: repeat mask done).
      rewrite repeat_cons, <- app_assoc. reflexivity.
Qed.

Lemma fill_mask_repeat (r : list rune) (mask : rune) :
  fill_mask r mask = repeat mask (length r).
Proof. exact (fill_mask_from mask r 0). Qed.

Lemma copy_runes_all (dst src : list rune) :
  length dst = length src -> copy_runes dst src = src.
Proof.
  intros E. unfold copy_runes. rewrite E, Nat.min_id.
  rewrite firstn_all. rewrite <- E, skipn_all. apply app_nil_r.
Qed.

Lemma make_runes_length (a : list rune) : length (make_runes (len a)) = length a.
Proof. unfold make_runes, len. rewrite repeat_length. lia. Qed.

(* ================================================================= *)
(** ** The cursor operations, equationally *)

Lemma set_Position_same (c : Cursor) : set_Position c (Position c) = c.
Proof. now destruct c. Qed.

Lemma correctPosition_clamp (c : Cursor) :
  correctPosition c = set_Position c (clamp (len (Input c)) (Position c)).
Proof.
  pose proof (len_nonneg (Input c)) as Hl.
  unfold correctPosition, clamp.
  destruct (Z.gtb_spec (Position c) (len (Input c))); simpl.
  - destruct (Z.ltb_spec (len (Input c)) 0); [lia|].
    unfold set_Position. f_equal. lia.
  - destruct (Z.ltb_spec (Position c) 0); unfold set_Position.
    + f_equal. lia.
    + destruct c; simpl in *. f_equal. lia.
Qed.

Lemma clamp_range (hi z : Z) : 0 <= hi -> 0 <= clamp hi z <= hi.
Proof. unfold clamp. lia. Qed.

Lemma clamp_in_range (hi z : Z) : 0 <= z <= hi -> clamp hi z = z.
Proof. unfold clamp. lia. Qed.

Lemma Place_eq (c : Cursor) (z : Z) :
  Place c z = set_Position c (clamp (len (Input c)) z).
Proof. unfold Place. now rewrite correctPosition_clamp. Qed.

Lemma Move_eq (c : Cursor) (d : Z) :
  Move c d = set_Position c (clamp (len (Input c)) (wrap_int (Position c + d))).
Proof. unfold Move. now rewrite correctPosition_clamp. Qed.

Lemma Get_eq (c : Cursor) : Get c = string_of_runes (Input c).
Proof.
  unfold Get. now rewrite copy_runes_all by apply make_runes_length.
Qed.

Lemma position_ok_correct (c : Cursor) : position_ok (correctPosition c).
Proof.
  rewrite correctPosition_clamp. unfold position_ok. simpl.
  apply clamp_range, len_nonneg.
Qed.

Lemma erase_correctPosition (c : Cursor) :
  erase (correctPosition c) = erase c.
Proof. now rewrite correctPosition_clamp. Qed.

Lemma position_ok_Place (c : Cursor) (z : Z) : position_ok (Place c z).
Proof. apply position_ok_correct. Qed.

Lemma position_ok_Move (c : Cursor) (d : Z) : position_ok (Move c d).
Proof. apply position_ok_correct. Qed.

Lemma position_ok_Replace (c : Cursor) (s : string) :
  position_ok (Replace c s).
Proof. apply position_ok_correct. Qed.

Lemma position_ok_NewCursor (s : string) (p : option Pointer) (e : bool) :
  position_ok (NewCursor s p e).
Proof. unfold NewCursor. destruct e; apply position_ok_correct. Qed.

Lemma len_firstn_skipn (a : list rune) (n : nat) :
  len (firstn n a) + len (skipn n a) = len a.
Proof.
  unfold len. rewrite <- Nat2Z.inj_add, <- length_app, firstn_skipn.
  reflexivity.
Qed.

Lemma len_firstn (a : list rune) (i : Z) :
  0 <= i <= len a -> len (firstn (Z.to_nat i) a) = i.
Proof. unfold len. intros H. rewrite length_firstn. lia. Qed.

Lemma len_skipn (a : list rune) (i : Z) :
  0 <= i <= len a -> len (skipn (Z.to_nat i) a) = len a - i.
Proof. unfold len. intros H. rewrite length_skipn. lia. Qed.

(** [Update] panics exactly when the position is out of range. *)
Lemma Update_in_range (c : Cursor) (s : string) :
  position_ok c ->
  Update c s =
    Some (Move (set_Input c (firstn (Z.to_nat (Position c)) (Input c)
                             ++ runes_of_string s
                             ++ skipn (Z.to_nat (Position c)) (Input c)))
               (len (runes_of_string s))).
Proof.
  intros H. unfold Update.
  now rewrite slice_to_in_range, slice_from_in_range.
Qed.

Lemma Update_out_of_range (c : Cursor) (s : string) :
  ~ position_ok c -> Update c s = None.
Proof.
  unfold position_ok. intros H. unfold Update.
  rewrite slice_to_out_of_range by lia. reflexivity.
Qed.

Lemma Update_position_ok (c c' : Cursor) (s : string) :
  Update c s = Some c' -> position_ok c'.
Proof.
  unfold Update. intros H.
  destruct (slice_to _ _); [|discriminate].
  destruct (slice_from _ _); [|discriminate].
  inversion H. apply position_ok_Move.
Qed.

Lemma Update_erase (c c' : Cursor) (s : string) :
  Update c s = Some c' -> erase c' = erase c.
Proof.
  unfold Update. intros H.
  destruct (slice_to _ _); [|discriminate].
  destruct (slice_from _ _); [|discriminate].
  inversion H. rewrite Move_eq. reflexivity.
Qed.

(** [Backspace] on a cursor whose position is in range. *)
Lemma Backspace_at_start (c : Cursor) :
  Position c = 0 -> Backspace c = Some c.
Proof. intros H. unfold Backspace. now rewrite H. Qed.

Lemma Backspace_in_range (c : Cursor) :
  0 < Position c <= len (Input c) -> fits_int (Input c) ->
  Backspace c =
    Some (mkCursor (Cursor' c)
            (firstn (Z.to_nat (Position c - 1)) (Input c)
             ++ skipn (Z.to_nat (Position c)) (Input c))
            (Position c - 1) (erase c)).
Proof.
  unfold fits_int, max_int. intros H F. unfold Backspace.
  destruct (Z.eqb_spec (Position c) 0); [lia|].
  rewrite wrap_int_small by (unfold min_int, max_int; lia).
  rewrite slice_to_in_range by lia.
  assert (E : forall c' : Cursor,
             Position c' = Position c ->
             len (Input c') = len (Input c) - 1 ->
             Move c' (-1) =
               mkCursor (Cursor' c') (Input c') (Position c - 1) (erase c')).
  { intros c' Hp Hl. rewrite Move_eq, Hp, Hl.
    rewrite wrap_int_small by (unfold min_int, max_int; lia).
    rewrite clamp_in_range by lia. reflexivity. }
  destruct (Z.eqb_spec (Position c) (len (Input c))) as [Heq|Hne].
  - rewrite E; simpl; [| reflexivity | rewrite len_firstn; lia].
    replace (skipn (Z.to_nat (Position c)) (Input c)) with (@nil rune).
    + now rewrite app_nil_r.
    + rewrite Heq. unfold len. rewrite Nat2Z.id. symmetry. apply skipn_all.
  - rewrite slice_from_in_range by lia.
    rewrite E; simpl; [reflexivity | reflexivity |].
    rewrite len_app, len_firstn, len_skipn; lia.
Qed.

Lemma Backspace_out_of_range (c : Cursor) :
  ~ position_ok c -> Backspace c = None.
Proof.
  unfold position_ok. intros H. unfold Backspace.
  pose proof (len_nonneg (Input c)) as Hl.
  destruct (Z.eqb_spec (Position c) 0); [lia|].
  destruct (Z.eqb_spec (Position c) (len (Input c))); [lia|].
  destruct (slice_to _ _); [|reflexivity].
  rewrite slice_from_out_of_range by lia. reflexivity.
Qed.

Lemma Position_Move_le (c : Cursor) (d : Z) : Position (Move c d) <= max_int.
Proof.
  rewrite Move_eq. simpl. unfold clamp.
  pose proof (wrap_int_range (Position c + d)). unfold max_int in *. lia.
Qed.

(** [Backspace] returns whenever the position is in range and is an
    [int]. *)
Lemma Backspace_total (c : Cursor) :
  position_ok c -> Position c <= max_int ->
  exists c', Backspace c = Some c' /\ position_ok c'.
Proof.
  unfold position_ok. intros H Hm. unfold Backspace.
  destruct (Z.eqb_spec (Position c) 0); [eauto|].
  rewrite wrap_int_small by (unfold min_int, max_int in *; lia).
  rewrite slice_to_in_range by lia.
  destruct (Z.eqb_spec (Position c) (len (Input c))).
  - eexists; split; [reflexivity | apply position_ok_Move].
  - rewrite slice_from_in_range by lia.
    eexists; split; [reflexivity | apply position_ok_Move].
Qed.

Lemma Backspace_position_ok (c c' : Cursor) :
  position_ok c -> Backspace c = Some c' -> position_ok c'.
Proof.
  intros H. unfold Backspace.
  destruct (Z.eqb_spec (Position c) 0).
  - intros E; inversion E; now subst.
  - destruct (Z.eqb_spec (Position c) (len (Input c))).
    + destruct (slice_to _ _); [|discriminate].
      intros E; inversion E. apply position_ok_Move.
    + destruct (slice_to _ _); [|discriminate].
      destruct (slice_from _ _); [|discriminate].
      intros E; inversion E. apply position_ok_Move.
Qed.

Lemma Backspace_erase (c c' : Cursor) :
  Backspace c = Some c' -> erase c' = erase c.
Proof.
  unfold Backspace.
  destruct (Z.eqb_spec (Position c) 0).
  - intros E; inversion E; now subst.
  - destruct (Z.eqb_spec (Position c) (len (Input c))).
    + destruct (slice_to _ _); [|discriminate].
      intros E; inversion E. rewrite Move_eq. reflexivity.
    + destruct (slice_to _ _); [|discriminate].
      destruct (slice_from _ _); [|discriminate].
      intros E; inversion E. rewrite Move_eq. reflexivity.
Qed.

(* ================================================================= *)
(** ** The listener, case by case *)

Section ListenCases.

Variable K : KeyCodes.

Lemma Listen_none (c : Cursor) (line : option (list rune)) (pos key : Z) :
  key = 0 ->
  Listen K c line pos key = c1 <- reconcile c line ;; Some (carry_on c1).
Proof.
  intros ->. unfold Listen, reconcile.
  destruct line; [destruct (Update _ _)|]; reflexivity.
Qed.

Lemma Listen_enter (c : Cursor) (line : option (list rune)) (pos key : Z) :
  key <> 0 -> key = KeyEnter K ->
  Listen K c line pos key =
    c1 <- reconcile c line ;;
    Some (c1, (runes_of_string (Get c1), Position c1, false)).
Proof.
  intros H0 HE. unfold Listen, reconcile.
  apply Z.eqb_neq in H0. apply Z.eqb_eq in HE.
  destruct line; [destruct (Update _ _)|]; now rewrite ?H0, ?HE.
Qed.

Lemma Listen_backspace (c : Cursor) (line : option (list rune))
    (pos key : Z) :
  key <> 0 -> key <> KeyEnter K -> key = KeyBackspace K ->
  Listen K c line pos key =
    c1 <- reconcile c line ;;
    c2 <- Backspace (if erase c1 then Replace (set_erase c1 false) ""
                     else c1) ;;
    Some (carry_on c2).
Proof.
  intros H0 HE HB. unfold Listen, reconcile.
  apply Z.eqb_neq in H0, HE. apply Z.eqb_eq in HB.
  destruct line; [destruct (Update _ _)|]; rewrite ?H0, ?HE, ?HB;
    try reflexivity; destruct (Backspace _); reflexivity.
Qed.

Lemma Listen_forward (c : Cursor) (line : option (list rune))
    (pos key : Z) :
  key <> 0 -> key <> KeyEnter K -> key <> KeyBackspace K ->
  key = KeyForward K ->
  Listen K c line pos key =
    c1 <- reconcile c line ;;
    Some (carry_on (Move (set_erase c1 false) 1)).
Proof.
  intros H0 HE HB HF. unfold Listen, reconcile.
  apply Z.eqb_neq in H0, HE, HB. apply Z.eqb_eq in HF.
  destruct line; [destruct (Update _ _)|]; now rewrite ?H0, ?HE, ?HB, ?HF.
Qed.

Lemma Listen_backward (c : Cursor) (line : option (list rune))
    (pos key : Z) :
  key <> 0 -> key <> KeyEnter K -> key <> KeyBackspace K ->
  key <> KeyForward K -> key = KeyBackward K ->
  Listen K c line pos key =
    c1 <- reconcile c line ;; Some (carry_on (Move c1 (-1))).
Proof.
  intros H0 HE HB HF HW. unfold Listen, reconcile.
  apply Z.eqb_neq in H0, HE, HB, HF. apply Z.eqb_eq in HW.
  destruct line; [destruct (Update _ _)|];
    now rewrite ?H0, ?HE, ?HB, ?HF, ?HW.
Qed.

Lemma Listen_default (c : Cursor) (line : option (list rune))
    (pos key : Z) :
  other_key K key ->
  Listen K c line pos key =
    c1 <- reconcile c line ;;
    c2 <- (if erase c1
           then Update (set_erase c1 false) (string_of_line line)
           else Some c1) ;;
    Some (carry_on c2).
Proof.
  unfold other_key. simpl. intros H.
  assert (H0 : (key =? 0) = false) by (apply Z.eqb_neq; intuition).
  assert (HE : (key =? KeyEnter K) = false) by (apply Z.eqb_neq; intuition).
  assert (HB : (key =? KeyBackspace K) = false)
    by (apply Z.eqb_neq; intuition).
  assert (HF : (key =? KeyForward K) = false) by (apply Z.eqb_neq; intuition).
  assert (HW : (key =? KeyBackward K) = false)
    by (apply Z.eqb_neq; intuition).
  unfold Listen, reconcile.
  destruct line; [destruct (Update _ _) as [c1|]|];
    rewrite ?H0, ?HE, ?HB, ?HF, ?HW; try reflexivity.
  - destruct (erase c1); [destruct (Update _ _)|]; reflexivity.
  - destruct (erase c); [destruct (Update _ _)|]; reflexivity.
Qed.

(** Every key falls in exactly one of the six cases. *)
Lemma key_cases (key : Z) :
  key = 0
  \/ (key <> 0 /\ key = KeyEnter K)
  \/ (key <> 0 /\ key <> KeyEnter K /\ key = KeyBackspace K)
  \/ (key <> 0 /\ key <> KeyEnter K /\ key <> KeyBackspace K
      /\ key = KeyForward K)
  \/ (key <> 0 /\ key <> KeyEnter K /\ key <> KeyBackspace K
      /\ key <> KeyForward K /\ key = KeyBackward K)
  \/ other_key K key.
Proof.
  unfold other_key. simpl.
  destruct (Z.eq_dec key 0); [tauto|].
  destruct (Z.eq_dec key (KeyEnter K)); [tauto|].
  destruct (Z.eq_dec key (KeyBackspace K)); [tauto|].
  destruct (Z.eq_dec key (KeyForward K)); [tauto|].
  destruct (Z.eq_dec key (KeyBackward K)); [tauto|].
  do 5 right. intuition congruence.
Qed.

End ListenCases.

Section ListenInvariants.

Variable K : KeyCodes.

Lemma reconcile_position_ok (c c1 : Cursor) (line : option (list rune)) :
  position_ok c -> reconcile c line = Some c1 -> position_ok c1.
Proof.
  intros H. destruct line as [l|]; simpl.
  - apply Update_position_ok.
  - intros E; inversion E; now subst.
Qed.

Lemma reconcile_erase (c c1 : Cursor) (line : option (list rune)) :
  reconcile c line = Some c1 -> erase c1 = erase c.
Proof.
  destruct line as [l|]; simpl.
  - apply Update_erase.
  - intros E; inversion E; now subst.
Qed.

Lemma reconcile_total (c : Cursor) (line : option (list rune)) :
  position_ok c -> Position c <= max_int ->
  exists c1, reconcile c line = Some c1
             /\ position_ok c1 /\ Position c1 <= max_int.
Proof.
  intros H Hm. destruct line as [l|]; simpl.
  - rewrite Update_in_range by assumption.
    eexists; split; [reflexivity|]. split.
    + apply position_ok_Move.
    + apply Position_Move_le.
  - eauto.
Qed.

Lemma Replace_empty (c : Cursor) :
  Replace c "" = mkCursor (Cursor' c) [] 0 (erase c).
Proof. unfold Replace, End. rewrite Place_eq. reflexivity. Qed.

(** [Listen] keeps the position in range. *)
Lemma Listen_position_ok (c c' : Cursor) (line : option (list rune))
    (pos key : Z) (out : reply) :
  position_ok c -> Listen K c line pos key = Some (c', out) ->
  position_ok c'.
Proof.
  intros H.
  destruct (key_cases K key) as [C|[C|[C|[C|[C|C]]]]].
  - rewrite Listen_none by assumption.
    destruct (reconcile c line) as [c1|] eqn:R; [|discriminate].
    intros E; inversion E; subst. eapply reconcile_position_ok; eauto.
  - rewrite Listen_enter by tauto.
    destruct (reconcile c line) as [c1|] eqn:R; [|discriminate].
    intros E; inversion E; subst. eapply reconcile_position_ok; eauto.
  - rewrite Listen_backspace by tauto.
    destruct (reconcile c line) as [c1|] eqn:R; [|discriminate].
    destruct (Backspace _) as [c2|] eqn:B; [|discriminate].
    intros E; inversion E; subst.
    eapply Backspace_position_ok; [|exact B].
    destruct (erase c1); [apply position_ok_Replace|].
    eapply reconcile_position_ok; eauto.
  - rewrite Listen_forward by tauto.
    destruct (reconcile c line) as [c1|] eqn:R; [|discriminate].
    intros E; inversion E; subst. apply position_ok_Move.
  - rewrite Listen_backward by tauto.
    destruct (reconcile c line) as [c1|] eqn:R; [|discriminate].
    intros E; inversion E; subst. apply position_ok_Move.
  - rewrite Listen_default by assumption.
    destruct (reconcile c line) as [c1|] eqn:R; [|discriminate].
    destruct (erase c1).
    + destruct (Update _ _) as [c2|] eqn:U; [|discriminate].
      intros E; inversion E; subst. eapply Update_position_ok; eauto.
    + intros E; inversion E; subst. eapply reconcile_position_ok; eauto.
Qed.

(** [Listen] returns whenever the position is in range and is an
    [int]. *)
Lemma Listen_total (c : Cursor) (line : option (list rune)) (pos key : Z) :
  position_ok c -> Position c <= max_int ->
  exists c' out, Listen K c line pos key = Some (c', out).
Proof.
  intros H Hm.
  destruct (reconcile_total c line H Hm) as (c1 & R & H1 & Hm1).
  destruct (key_cases K key) as [C|[C|[C|[C|[C|C]]]]].
  - rewrite Listen_none, R by assumption. unfold carry_on. eauto.
  - rewrite Listen_enter, R by tauto. eauto.
  - rewrite Listen_backspace, R by tauto.
    destruct (Backspace_total
                (if erase c1 then Replace (set_erase c1 false) "" else c1))
      as (c2 & B & _).
    + destruct (erase c1); [apply position_ok_Replace | assumption].
    + destruct (erase c1); [|assumption].
      rewrite Replace_empty. simpl. unfold max_int. lia.
    + rewrite B. unfold carry_on. eauto.
  - rewrite Listen_forward, R by tauto. unfold carry_on. eauto.
  - rewrite Listen_backward, R by tauto. unfold carry_on. eauto.
  - rewrite Listen_default, R by assumption. unfold carry_on.
    destruct (erase c1); [|eauto].
    rewrite Update_in_range by exact H1. eauto.
Qed.

(** The erase flag after [Listen], case by case. *)
Lemma Listen_erase_cases (c c' : Cursor) (line : option (list rune))
    (pos key : Z) (out : reply) :
  Listen K c line pos key = Some (c', out) ->
  ((key = 0 \/ key = KeyEnter K
    \/ (key <> KeyBackspace K /\ key <> KeyForward K
        /\ key = KeyBackward K)) /\ erase c' = erase c)
  \/ ((key <> 0 /\ key <> KeyEnter K
       /\ (key = KeyBackspace K \/ key = KeyForward K \/ other_key K key))
      /\ erase c' = false).
Proof.
  destruct (key_cases K key) as [C|[C|[C|[C|[C|C]]]]].
  - rewrite Listen_none by assumption.
    destruct (reconcile c line) as [c1|] eqn:R; [|discriminate].
    intros E; inversion E; subst c'. left. split; [tauto|].
    eapply reconcile_erase; eauto.
  - rewrite Listen_enter by tauto.
    destruct (reconcile c line) as [c1|] eqn:R; [|discriminate].
    intros E; inversion E; subst c'. left. split; [tauto|].
    eapply reconcile_erase; eauto.
  - rewrite Listen_backspace by tauto.
    destruct (reconcile c line) as [c1|] eqn:R; [|discriminate].
    destruct (Backspace _) as [c2|] eqn:B; [|discriminate].
    intros E; inversion E; subst c'. right. split; [tauto|].
    rewrite (Backspace_erase _ _ B).
    destruct (erase c1) eqn:Ee; [now rewrite Replace_empty | exact Ee].
  - rewrite Listen_forward by tauto.
    destruct (reconcile c line) as [c1|] eqn:R; [|discriminate].
    intros E; inversion E; subst c'. right. split; [tauto|].
    rewrite Move_eq. reflexivity.
  - rewrite Listen_backward by tauto.
    destruct (reconcile c line) as [c1|] eqn:R; [|discriminate].
    intros E; inversion E; subst c'. left. split; [tauto|].
    rewrite Move_eq. simpl. eapply reconcile_erase; eauto.
  - assert (C' : key <> 0 /\ key <> KeyEnter K)
      by (unfold other_key in C; simpl in C; intuition congruence).
    rewrite Listen_default by assumption.
    destruct (reconcile c line) as [c1|] eqn:R; [|discriminate].
    destruct (erase c1) eqn:Ee.
    + destruct (Update _ _) as [c2|] eqn:U; [|discriminate].
      intros E; inversion E; subst c'. right.
      split; [tauto|].
      now rewrite (Update_erase _ _ _ U).
    + intros E; inversion E; subst c'. right.
      split; [tauto | exact Ee].
Qed.

End ListenInvariants.

Lemma keys_distinct_neq (K : KeyCodes) :
  keys_distinct K ->
  KeyEnter K <> 0 /\ KeyBackspace K <> 0 /\ KeyForward K <> 0
  /\ KeyBackward K <> 0
  /\ KeyBackspace K <> KeyEnter K /\ KeyForward K <> KeyEnter K
  /\ KeyBackward K <> KeyEnter K
  /\ KeyForward K <> KeyBackspace K /\ KeyBackward K <> KeyBackspace K
  /\ KeyBackward K <> KeyForward K.
Proof.
  unfold keys_distinct. intros H.
  inversion H as [|x1 l1 N1 H1]; subst.
  inversion H1 as [|x2 l2 N2 H2]; subst.
  inversion H2 as [|x3 l3 N3 H3]; subst.
  inversion H3 as [|x4 l4 N4 H4]; subst.
  simpl in *. intuition congruence.
Qed.

Lemma sample_keys_distinct : keys_distinct sample_keys.
Proof.
  unfold keys_distinct, sample_keys. simpl.
  repeat constructor; simpl; intuition discriminate.
Qed.

(* ================================================================= *)
(** ** Calls and sequences of calls *)

Section Runs.

Variable K : KeyCodes.

Lemma apply_op_position_ok (c c' : Cursor) (o : op) :
  position_ok c -> apply_op K c o = Some c' -> position_ok c'.
Proof.
  intros H. destruct o; simpl; intros E;
    try (inversion E; subst; apply position_ok_correct).
  - eapply Update_position_ok; eauto.
  - eapply Backspace_position_ok; eauto.
  - destruct (Listen K c line pos key) as [[c1 out]|] eqn:L;
      [|discriminate].
    inversion E; subst. simpl. eapply Listen_position_ok; eauto.
Qed.

Lemma apply_op_total (c : Cursor) (o : op) :
  position_ok c -> fits_int (Input c) ->
  exists c', apply_op K c o = Some c'.
Proof.
  intros H F.
  assert (Hm : Position c <= max_int)
    by (unfold position_ok, fits_int in *; lia).
  destruct o; simpl; eauto.
  - rewrite Update_in_range by assumption. eauto.
  - destruct (Backspace_total c H Hm) as (c' & B & _). eauto.
  - destruct (Listen_total K c line pos key H Hm) as (c' & out & L).
    rewrite L. eauto.
Qed.

Lemma apply_op_erase (c c' : Cursor) (o : op) :
  apply_op K c o = Some c' -> erase c = false -> erase c' = false.
Proof.
  destruct o; simpl; intros E He;
    try (inversion E; subst;
         unfold Replace, Start, End, Place, Move;
         rewrite erase_correctPosition; simpl; assumption).
  - rewrite (Update_erase _ _ _ E). assumption.
  - rewrite (Backspace_erase _ _ E). assumption.
  - destruct (Listen K c line pos key) as [[c1 out]|] eqn:L;
      [|discriminate].
    inversion E; subst. simpl.
    destruct (Listen_erase_cases K _ _ _ _ _ _ L) as [[_ E1]|[_ E1]];
      congruence.
Qed.

Lemma run_position_ok (ops : list op) (c c' : Cursor) :
  position_ok c -> run K ops c = Some c' -> position_ok c'.
Proof.
  revert c. induction ops as [|o ops IH]; simpl; intros c H E.
  - inversion E; now subst.
  - destruct (apply_op K c o) as [c1|] eqn:A; [|discriminate].
    eapply IH; [|exact E]. eapply apply_op_position_ok; eauto.
Qed.

Lemma run_total (ops : list op) (c : Cursor) :
  position_ok c -> run_fits K ops c -> exists c', run K ops c = Some c'.
Proof.
  revert c. induction ops as [|o ops IH]; simpl; intros c H [F R].
  - eauto.
  - destruct (apply_op_total c o H F) as (c1 & A). rewrite A.
    apply IH; [eapply apply_op_position_ok; eauto | auto].
Qed.

Lemma run_erase (ops : list op) (c c' : Cursor) :
  run K ops c = Some c' -> erase c = false -> erase c' = false.
Proof.
  revert c. induction ops as [|o ops IH]; simpl; intros c E He.
  - inversion E; now subst.
  - destruct (apply_op K c o) as [c1|] eqn:A; [|discriminate].
    eapply IH; [exact E|]. eapply apply_op_erase; eauto.
Qed.

End Runs.

(* ================================================================= *)
(** ** The position invariant *)

(** C2.  The position is within [0, len(Input)] after construction and
    after every call of Place, Move, Start, End, Update, Replace,
    Backspace and Listen that starts from a position in range; such a
    call is never rejected (it returns, on every buffer that is a slice),
    and so is every sequence of them; Place and Move clamp the requested
    position into the range. *)
Theorem position_invariant (K : KeyCodes) :
  (forall s p e, position_ok (NewCursor s p e))
  /\ (forall c o c',
        position_ok c -> apply_op K c o = Some c' -> position_ok c')
  /\ (forall c o,
        position_ok c -> fits_int (Input c) ->
        exists c', apply_op K c o = Some c' /\ position_ok c')
  /\ (forall ops c c',
        position_ok c -> run K ops c = Some c' -> position_ok c')
  /\ (forall ops c,
        position_ok c -> run_fits K ops c ->
        exists c', run K ops c = Some c' /\ position_ok c')
  /\ (forall ops s p e,
        run_fits K ops (NewCursor s p e) ->
        exists c', run K ops (NewCursor s p e) = Some c' /\ position_ok c')
  /\ (forall c z,
        Place c z = set_Position c (clamp (len (Input c)) z)
        /\ position_ok (Place c z))
  /\ (forall c d,
        Move c d = set_Position c (clamp (len (Input c))
                                         (wrap_int (Position c + d)))
        /\ position_ok (Move c d)).
Proof.
  split; [exact position_ok_NewCursor|].
  split; [intros c o c'; apply apply_op_position_ok|].
  split.
  { intros c o H F. destruct (apply_op_total K c o H F) as (c' & A).
    exists c'. split; [exact A|]. eapply apply_op_position_ok; eauto. }
  split; [intros ops c c'; apply run_position_ok|].
  assert (T : forall ops c,
             position_ok c -> run_fits K ops c ->
             exists c', run K ops c = Some c' /\ position_ok c').
  { intros ops c H R. destruct (run_total K ops c H R) as (c' & A).
    exists c'. split; [exact A|]. eapply run_position_ok; eauto. }
  split; [exact T|].
  split; [intros ops s p e; apply T, position_ok_NewCursor|].
  split.
  - intros c z. split; [apply Place_eq | apply position_ok_Place].
  - intros c d. split; [apply Move_eq | apply position_ok_Move].
Qed.

Lemma position_invariant_witness :
  exists c',
    run sample_keys
        [OpUpdate "ab"; OpMove 7; OpBackspace;
         OpListen (Some [110]) 0 110; OpPlace (-3)]
        (NewCursor "yes" None true) = Some c'
    /\ position_ok c'.
Proof.
  destruct (position_invariant sample_keys) as (_ & _ & _ & _ & _ & H & _).
  apply H.
  repeat (cbn [run_fits]; split;
          [ vm_compute; discriminate
          | intros ? E; vm_compute in E; inversion E; subst; clear E ]).
  cbn [run_fits]. split; [vm_compute; discriminate | exact I].
Defined.

(* ================================================================= *)
(** ** The erase flag *)

(** C10.  The erase flag is whatever [NewCursor] was given, and no call
    turns it from false to true: every method call, every [Listen] call
    and every sequence of them leaves a cleared flag cleared.  A [Listen]
    call that returns leaves the flag as it was on the empty key, on
    [KeyEnter] and on [KeyBackward], and clears it on [KeyBackspace], on
    [KeyForward] and on any other key. *)
Theorem erase_never_set_again (K : KeyCodes) :
  (forall s p e, erase (NewCursor s p e) = e)
  /\ (forall c o c',
        apply_op K c o = Some c' -> erase c = false -> erase c' = false)
  /\ (forall ops c c',
        run K ops c = Some c' -> erase c = false -> erase c' = false)
  /\ (forall c line pos key c' out,
        Listen K c line pos key = Some (c', out) ->
        erase c' = erase c \/ erase c' = false)
  /\ (forall c line pos key c' out,
        keys_distinct K ->
        Listen K c line pos key = Some (c', out) ->
        (key = 0 \/ key = KeyEnter K \/ key = KeyBackward K ->
         erase c' = erase c)
        /\ (key = KeyBackspace K \/ key = KeyForward K \/ other_key K key ->
            erase c' = false)).
Proof.
  split.
  { intros s p e. unfold NewCursor.
    destruct e; unfold Start, End, Place;
      now rewrite erase_correctPosition. }
  split; [intros c o c'; apply apply_op_erase|].
  split; [intros ops c c'; apply run_erase|].
  split.
  { intros c line pos key c' out L.
    destruct (Listen_erase_cases K _ _ _ _ _ _ L) as [[_ E]|[_ E]]; auto. }
  intros c line pos key c' out D L.
  destruct (keys_distinct_neq K D)
    as (N1 & N2 & N3 & N4 & N5 & N6 & N7 & N8 & N9 & N10).
  destruct (Listen_erase_cases K _ _ _ _ _ _ L) as [[C E]|[C E]].
  - split; [auto|].
    unfold other_key; simpl. intros H. exfalso. intuition congruence.
  - split; [|auto].
    intros H. exfalso. unfold other_key in C; simpl in C.
    intuition congruence.
Qed.

Lemma erase_never_set_again_witness :
  erase (NewCursor "yes" None true) = true
  /\ (exists c' out,
        Listen sample_keys (NewCursor "yes" None true) None 0 6
          = Some (c', out)
        /\ erase c' = false)
  /\ (exists c',
        run sample_keys [OpListen (Some [110]) 0 110; OpStart;
                         OpReplace "no"; OpListen None 0 2]
            (NewCursor "yes" None false) = Some c'
        /\ erase c' = false).
Proof.
  destruct (erase_never_set_again sample_keys) as (H1 & H2 & H3 & H4 & H5).
  split; [apply H1|]. split.
  - assert (L : Listen sample_keys (NewCursor "yes" None true) None 0 6
                = Some (carry_on
                          (Move (set_erase (NewCursor "yes" None true) false)
                                1)))
      by reflexivity.
    eexists. eexists. split; [exact L|].
    apply (proj2 (H5 _ _ _ _ _ _ sample_keys_distinct L)).
    right; left; reflexivity.
  - assert (R : run sample_keys [OpListen (Some [110]) 0 110; OpStart;
                                 OpReplace "no"; OpListen None 0 2]
                    (NewCursor "yes" None false)
                = Some (mkCursor (Some defaultCursor) [110; 111] 1 false))
      by reflexivity.
    eexists. split; [exact R|].
    apply (H3 _ _ _ R). apply H1.
Defined.

(* ================================================================= *)
(** ** Strings of runes *)

Lemma string_app_assoc (s1 s2 s3 : string) :
  ((s1 ++ s2) ++ s3 = s1 ++ (s2 ++ s3))%string.
Proof. induction s1 as [|c s1 IH]; simpl; [reflexivity | now rewrite IH]. Qed.

Lemma string_app_nil_r (s : string) : (s ++ "" = s)%string.
Proof. induction s as [|c s IH]; simpl; [reflexivity | now rewrite IH]. Qed.

Lemma string_of_bytes_app (a b : list Z) :
  string_of_bytes (a ++ b) = (string_of_bytes a ++ string_of_bytes b)%string.
Proof. induction a as [|x a IH]; simpl; [reflexivity | now rewrite IH]. Qed.

Lemma string_of_runes_app (a b : list rune) :
  string_of_runes (a ++ b)
  = (string_of_runes a ++ string_of_runes b)%string.
Proof.
  unfold string_of_runes, encode.
  now rewrite flat_map_app, string_of_bytes_app.
Qed.

(** A move that stays inside the buffer and inside [int] is exact. *)
Lemma Move_in_range (c : Cursor) (d : Z) :
  0 <= Position c + d <= len (Input c) -> Position c + d <= max_int ->
  Move c d = set_Position c (Position c + d).
Proof.
  intros H Hm. rewrite Move_eq.
  rewrite wrap_int_small by (unfold min_int, max_int in *; lia).
  now rewrite clamp_in_range.
Qed.

(** The rune before an in-range position, and the buffer around it. *)
Lemma split_before_position (a : list rune) (p : Z) :
  0 < p <= len a ->
  exists x,
    nth_error a (Z.to_nat (p - 1)) = Some x
    /\ a = firstn (Z.to_nat (p - 1)) a ++ x :: skipn (Z.to_nat p) a.
Proof.
  intros H.
  destruct (nth_error_in_range a (p - 1)) as [x Hx]; [lia|].
  exists x. split; [exact Hx|].
  rewrite <- (firstn_skipn (Z.to_nat (p - 1)) a) at 1.
  f_equal. rewrite (skipn_S_nth _ _ _ Hx). f_equal. f_equal. lia.
Qed.

(* ================================================================= *)
(** ** Update *)

(** C8.  On a cursor whose position is in range, [Update(t)] returns, the
    buffer becomes Input[0:Position] ++ t ++ Input[Position:], and the
    position grows by the number of runes of [t] (the new buffer being a
    slice, its length fits an [int]). *)
Theorem Update_splices_at_position (c : Cursor) (t : string) :
  position_ok c ->
  fits_int (Input c ++ runes_of_string t) ->
  Update c t =
    Some (mkCursor (Cursor' c)
            (firstn (Z.to_nat (Position c)) (Input c)
             ++ runes_of_string t
             ++ skipn (Z.to_nat (Position c)) (Input c))
            (Position c + len (runes_of_string t))
            (erase c)).
Proof.
  unfold position_ok, fits_int. rewrite len_app. intros H F.
  pose proof (len_nonneg (runes_of_string t)) as Hb.
  rewrite Update_in_range by assumption.
  rewrite Move_in_range; simpl; [reflexivity | | lia].
  rewrite !len_app, len_firstn, len_skipn by lia. lia.
Qed.

Lemma Update_splices_at_position_witness :
  Update (mkCursor (Some PipeCursor) [97; 98; 99] 1 false) "xy"
  = Some (mkCursor (Some PipeCursor) [97; 120; 121; 98; 99] 3 false).
Proof.
  apply (Update_splices_at_position
           (mkCursor (Some PipeCursor) [97; 98; 99] 1 false) "xy").
  - unfold position_ok. simpl. vm_compute. split; discriminate.
  - unfold fits_int. vm_compute. discriminate.
Defined.

(* ================================================================= *)
(** ** Backspace *)

(** C6.  On a cursor whose position is in range, [Backspace] at position
    0 returns the cursor as it is; at a position p > 0, at the end of the
    buffer or inside it, the buffer loses exactly the rune at index p-1
    and the position becomes p-1. *)
Theorem Backspace_removes_before_position (c : Cursor) :
  position_ok c -> fits_int (Input c) ->
  (Position c = 0 -> Backspace c = Some c)
  /\ (0 < Position c ->
      exists x,
        nth_error (Input c) (Z.to_nat (Position c - 1)) = Some x
        /\ Input c = firstn (Z.to_nat (Position c - 1)) (Input c)
                     ++ x :: skipn (Z.to_nat (Position c)) (Input c)
        /\ Backspace c =
             Some (mkCursor (Cursor' c)
                     (firstn (Z.to_nat (Position c - 1)) (Input c)
                      ++ skipn (Z.to_nat (Position c)) (Input c))
                     (Position c - 1) (erase c))).
Proof.
  unfold position_ok. intros H F. split.
  - apply Backspace_at_start.
  - intros Hp.
    destruct (split_before_position (Input c) (Position c)) as (x & Hx & E);
      [lia|].
    exists x. split; [exact Hx|]. split; [exact E|].
    apply Backspace_in_range; [lia | assumption].
Qed.

Lemma Backspace_removes_before_position_witness :
  Backspace (mkCursor (Some PipeCursor) [] 0 false)
  = Some (mkCursor (Some PipeCursor) [] 0 false)
  /\ Backspace (mkCursor (Some PipeCursor) [97; 98; 99] 3 false)
     = Some (mkCursor (Some PipeCursor) [97; 98] 2 false)
  /\ Backspace (mkCursor (Some PipeCursor) [97; 98; 99] 2 false)
     = Some (mkCursor (Some PipeCursor) [97; 99] 1 false).
Proof.
  split; [|split].
  - apply (Backspace_removes_before_position
             (mkCursor (Some PipeCursor) [] 0 false)).
    + unfold position_ok. vm_compute. split; discriminate.
    + unfold fits_int. vm_compute. discriminate.
    + reflexivity.
  - destruct (Backspace_removes_before_position
                (mkCursor (Some PipeCursor) [97; 98; 99] 3 false))
      as [_ H].
    + unfold position_ok. vm_compute. split; discriminate.
    + unfold fits_int. vm_compute. discriminate.
    + destruct H as (x & _ & _ & B); [reflexivity | exact B].
  - destruct (Backspace_removes_before_position
                (mkCursor (Some PipeCursor) [97; 98; 99] 2 false))
      as [_ H].
    + unfold position_ok. vm_compute. split; discriminate.
    + unfold fits_int. vm_compute. discriminate.
    + destruct H as (x & _ & _ & B); [reflexivity | exact B].
Defined.

(* ================================================================= *)
(** ** Rendering *)

Lemma format_under_caret (a : list rune) (c : Cursor) (marker : Pointer)
    (x : rune) :
  Cursor' c = Some marker ->
  0 <= Position c < len a -> fits_int a ->
  nth_error a (Z.to_nat (Position c)) = Some x ->
  format a c =
    Some (string_of_runes (firstn (Z.to_nat (Position c)) a
                           ++ marker [x]
                           ++ skipn (S (Z.to_nat (Position c))) a)).
Proof.
  unfold fits_int. intros Hm H F Hx. unfold format.
  destruct (Z.ltb_spec (Position c) (len a)); [|lia].
  rewrite wrap_int_small by (unfold min_int, max_int in *; lia).
  rewrite slice_in_range by lia.
  replace (Z.to_nat (Position c + 1 - Position c)) with 1%nat by lia.
  rewrite (firstn_1_skipn _ _ _ Hx), Hm. simpl call. cbv iota.
  rewrite slice_to_in_range, slice_from_in_range by lia.
  replace (Z.to_nat (Position c + 1)) with (S (Z.to_nat (Position c)))
    by lia.
  simpl app. now rewrite <- app_assoc.
Qed.

Lemma format_past_end (a : list rune) (c : Cursor) (marker : Pointer) :
  Cursor' c = Some marker -> len a <= Position c ->
  format a c = Some (string_of_runes (a ++ marker [])).
Proof.
  intros Hm H. unfold format.
  destruct (Z.ltb_spec (Position c) (len a)); [lia|].
  now rewrite Hm.
Qed.

(** [format] looks at the cursor only through its position and marker. *)
Lemma format_same_caret (a : list rune) (c1 c2 : Cursor) :
  Position c1 = Position c2 -> Cursor' c1 = Cursor' c2 ->
  format a c1 = format a c2.
Proof. intros Hp Hm. unfold format. now rewrite Hp, Hm. Qed.

(** C3.  On a cursor with a marker and a position in range, [Format]
    returns the string of Input[0:Position] ++ marker([Input[Position]])
    ++ Input[Position+1:] when the position indexes a rune, and the
    string of Input ++ marker([]) when the position is the length.  On
    "abc" at position 1 that is "a" + marker("b") + "c"; on the empty
    buffer at position 0 it is marker(""). *)
Theorem Format_splices_marker (marker : Pointer) :
  (forall c,
     Cursor' c = Some marker -> position_ok c -> fits_int (Input c) ->
     (Position c < len (Input c) ->
      exists x,
        nth_error (Input c) (Z.to_nat (Position c)) = Some x
        /\ Format c =
             Some (string_of_runes
                     (firstn (Z.to_nat (Position c)) (Input c)
                      ++ marker [x]
                      ++ skipn (S (Z.to_nat (Position c))) (Input c))))
     /\ (Position c = len (Input c) ->
         Format c = Some (string_of_runes (Input c ++ marker []))))
  /\ (forall e,
        Format (mkCursor (Some marker) (runes_of_string "abc") 1 e)
        = Some ("a" ++ string_of_runes (marker (runes_of_string "b"))
                    ++ "c")%string)
  /\ (forall e,
        Format (mkCursor (Some marker) [] 0 e)
        = Some (string_of_runes (marker (runes_of_string "")))).
Proof.
  split; [|split].
  - unfold position_ok. intros c Hm H F. split.
    + intros Hlt.
      destruct (nth_error_in_range (Input c) (Position c)) as [x Hx];
        [lia|].
      exists x. split; [exact Hx|].
      apply format_under_caret; auto. lia.
    + intros Heq. apply format_past_end; auto. lia.
  - intros e. unfold Format.
    rewrite (format_under_caret _ _ marker 98);
      try reflexivity;
      [| simpl; vm_compute; split; [discriminate | reflexivity]
       | unfold fits_int; vm_compute; discriminate ].
    rewrite !string_of_runes_app. reflexivity.
  - intros e. unfold Format.
    now rewrite (format_past_end _ _ marker) by reflexivity.
Qed.

Lemma Format_splices_marker_witness :
  Format (mkCursor (Some PipeCursor) [104; 105; 33] 2 false)
  = Some "hi|!"%string
  /\ Format (mkCursor (Some PipeCursor) [104; 105; 33] 3 false)
     = Some "hi!|"%string.
Proof.
  destruct (Format_splices_marker PipeCursor) as [H _].
  assert (P2 : position_ok (mkCursor (Some PipeCursor) [104; 105; 33] 2 false))
    by (unfold position_ok; vm_compute; split; discriminate).
  assert (P3 : position_ok (mkCursor (Some PipeCursor) [104; 105; 33] 3 false))
    by (unfold position_ok; vm_compute; split; discriminate).
  assert (F : fits_int [104; 105; 33])
    by (unfold fits_int; vm_compute; discriminate).
  split.
  - destruct (H (mkCursor (Some PipeCursor) [104; 105; 33] 2 false)
                eq_refl P2 F) as [H2 _].
    destruct H2 as (x & Hx & E); [reflexivity|].
    inversion Hx; subst x. exact E.
  - destruct (H (mkCursor (Some PipeCursor) [104; 105; 33] 3 false)
                eq_refl P3 F) as [_ H3].
    apply H3. reflexivity.
Defined.

(* ================================================================= *)
(** ** Masked rendering *)

Lemma FormatMask_eq (c : Cursor) (mask : rune) :
  FormatMask c mask = format (repeat mask (length (Input c))) c.
Proof.
  unfold FormatMask. rewrite fill_mask_repeat, make_runes_length.
  reflexivity.
Qed.

(** C4.  [FormatMask(mask)] is the caret splice of [len(Input)] copies of
    the mask at the same position, so two cursors with buffers of the
    same length, the same position and the same marker render alike under
    every mask, whatever their buffers hold.  On "abc" with the mask '*'
    at position 3 it is "***" + marker(""). *)
Theorem FormatMask_depends_on_length_only :
  (forall c mask,
     FormatMask c mask = format (repeat mask (length (Input c))) c)
  /\ (forall c1 c2 mask,
        length (Input c1) = length (Input c2) ->
        Position c1 = Position c2 ->
        Cursor' c1 = Cursor' c2 ->
        FormatMask c1 mask = FormatMask c2 mask)
  /\ (forall marker e,
        FormatMask (mkCursor (Some marker) (runes_of_string "abc") 3 e) 42
        = Some ("***" ++ string_of_runes (marker (runes_of_string "")))%string).
Proof.
  split; [exact FormatMask_eq|]. split.
  - intros c1 c2 mask Hl Hp Hm.
    rewrite !FormatMask_eq, Hl. now apply format_same_caret.
  - intros marker e. rewrite FormatMask_eq.
    rewrite (format_past_end _ _ marker) by reflexivity.
    rewrite string_of_runes_app. reflexivity.
Qed.

Lemma FormatMask_depends_on_length_only_witness :
  FormatMask (mkCursor (Some PipeCursor) (runes_of_string "abc") 1 false) 42
  = FormatMask (mkCursor (Some PipeCursor) (runes_of_string "xyz") 1 true) 42.
Proof.
  destruct FormatMask_depends_on_length_only as (_ & H & _).
  apply H; reflexivity.
Defined.

(* ================================================================= *)
(** ** UTF-8: decoding what was encoded *)

Section BitsAsArithmetic.

(** Two numbers with no bit in common: [lor] adds them. *)
Lemma lor_add (y x k : Z) :
  0 <= k -> y mod 2 ^ k = 0 -> 0 <= x < 2 ^ k -> Z.lor y x = y + x.
Proof.
  intros Hk Hy Hx.
  assert (D : Z.land y x = 0).
  { apply Z.bits_inj'. intros n Hn.
    rewrite Z.land_spec, Z.bits_0.
    destruct (Z.lt_ge_cases n k) as [L|G].
    - rewrite <- (Z.mod_pow2_bits_low y k n) by lia.
      now rewrite Hy, Z.bits_0.
    - rewrite <- (Z.mod_small x (2 ^ k)) by lia.
      rewrite Z.mod_pow2_bits_high by lia. apply andb_false_r. }
  rewrite (Z.add_nocarry_lxor _ _ D). symmetry. now apply Z.lxor_lor.
Qed.

Lemma land_maskx (a : Z) : Z.land a maskx = a mod 64.
Proof. change maskx with (Z.ones 6). now rewrite Z.land_ones by lia. Qed.

Lemma land_mask2 (a : Z) : Z.land a mask2 = a mod 32.
Proof. change mask2 with (Z.ones 5). now rewrite Z.land_ones by lia. Qed.

Lemma land_mask3 (a : Z) : Z.land a mask3 = a mod 16.
Proof. change mask3 with (Z.ones 4). now rewrite Z.land_ones by lia. Qed.

Lemma land_mask4 (a : Z) : Z.land a mask4 = a mod 8.
Proof. change mask4 with (Z.ones 3). now rewrite Z.land_ones by lia. Qed.


End BitsAsArithmetic.

(** Rewrites bit operations on runes and bytes into [/], [mod], [*]. *)
Ltac bits_to_arith :=
  unfold to_byte;
  rewrite ?land_maskx, ?land_mask2, ?land_mask3, ?land_mask4;
  rewrite ?Z.shiftr_div_pow2, ?Z.shiftl_mul_pow2 by lia;
  change (2 ^ 6) with 64; change (2 ^ 12) with 4096;
  change (2 ^ 18) with 262144.

Ltac div_mod_lia := Z.div_mod_to_equations; lia.

Section EncodeArithmetic.

Lemma encoderune_1 (r : rune) :
  0 <= r <= 0x7F -> encoderune r = [r].
Proof.
  intros H. unfold encoderune, rune1Max.
  destruct (Z.leb_spec 0 r), (Z.leb_spec r 127); try lia. simpl.
  unfold to_byte. now rewrite Z.mod_small by lia.
Qed.

Lemma encoderune_2 (r : rune) :
  0x80 <= r <= 0x7FF ->
  encoderune r = [192 + r / 64; 128 + r mod 64].
Proof.
  intros H. unfold encoderune, rune1Max, rune2Max.
  destruct (Z.leb_spec 0 r), (Z.leb_spec r 127), (Z.leb_spec r 2047);
    try lia. cbn [andb].
  bits_to_arith. unfold t2, tx.
  rewrite (lor_add 192 _ 6), (lor_add 128 _ 6); try lia; try reflexivity.
  - f_equal; [|f_equal]; div_mod_lia.
  - change (2 ^ 6) with 64. div_mod_lia.
  - change (2 ^ 6) with 64. div_mod_lia.
Qed.

Lemma three_bytes (r : rune) :
  0 <= r <= 0xFFFF ->
  [Z.lor t3 (to_byte (Z.shiftr r 12));
   Z.lor tx (Z.land (to_byte (Z.shiftr r 6)) maskx);
   Z.lor tx (Z.land (to_byte r) maskx)]
  = [224 + r / 4096; 128 + (r / 64) mod 64; 128 + r mod 64].
Proof.
  intros H. bits_to_arith. unfold t3, tx.
  rewrite (lor_add 224 _ 5), !(lor_add 128 _ 6);
    try lia; try reflexivity; try (change (2 ^ 6) with 64; div_mod_lia).
  f_equal; [|f_equal; [|f_equal]]; div_mod_lia.
Qed.

Lemma encoderune_3 (r : rune) :
  0x800 <= r <= 0xFFFF -> ~ (surrogateMin <= r <= surrogateMax) ->
  encoderune r = [224 + r / 4096; 128 + (r / 64) mod 64; 128 + r mod 64].
Proof.
  unfold surrogateMin, surrogateMax. intros H S.
  rewrite <- three_bytes by lia.
  unfold encoderune, rune1Max, rune2Max, rune3Max, maxRune,
    surrogateMin, surrogateMax.
  destruct (Z.leb_spec 0 r), (Z.leb_spec r 127), (Z.leb_spec r 2047),
    (Z.ltb_spec r 0), (Z.ltb_spec 1114111 r), (Z.leb_spec 55296 r),
    (Z.leb_spec r 57343), (Z.leb_spec r 65535);
    try lia; reflexivity.
Qed.

Lemma encoderune_4 (r : rune) :
  0x10000 <= r <= 0x10FFFF ->
  encoderune r = [240 + r / 262144; 128 + (r / 4096) mod 64;
                  128 + (r / 64) mod 64; 128 + r mod 64].
Proof.
  intros H.
  unfold encoderune, rune1Max, rune2Max, rune3Max, maxRune,
    surrogateMin, surrogateMax.
  destruct (Z.leb_spec 0 r), (Z.leb_spec r 127), (Z.leb_spec r 2047),
    (Z.ltb_spec r 0), (Z.ltb_spec 1114111 r), (Z.leb_spec 55296 r),
    (Z.leb_spec r 57343), (Z.leb_spec r 65535);
    try lia; cbn [andb orb].
  bits_to_arith. unfold t4, tx.
  rewrite (lor_add 240 _ 4), !(lor_add 128 _ 6);
    try lia; try reflexivity; try (change (2 ^ 6) with 64; div_mod_lia).
  f_equal; [|f_equal; [|f_equal; [|f_equal]]]; div_mod_lia.
Qed.

(** A rune that no string can carry is encoded as [runeError]. *)
Lemma encoderune_invalid (r : rune) :
  ~ valid_rune r -> encoderune r = encoderune runeError.
Proof.
  unfold valid_rune, maxRune, surrogateMin, surrogateMax. intros H.
  unfold encoderune at 1.
  unfold rune1Max, rune2Max, rune3Max, maxRune, surrogateMin, surrogateMax.
  destruct (Z.leb_spec 0 r), (Z.leb_spec r 127), (Z.leb_spec r 2047),
    (Z.ltb_spec r 0), (Z.ltb_spec 1114111 r), (Z.leb_spec 55296 r),
    (Z.leb_spec r 57343), (Z.leb_spec r 65535);
    try lia; reflexivity.
Qed.

End EncodeArithmetic.

(** Settles every integer comparison of the goal that arithmetic
    decides. *)
Ltac settle_tests :=
  repeat match goal with
    | |- context [?a <? ?b] => destruct (Z.ltb_spec a b); try lia
    | |- context [?a <=? ?b] => destruct (Z.leb_spec a b); try lia
    end;
  cbn [andb orb negb].

Ltac unfold_utf8_constants :=
  unfold cont, runeSelf, t2, t3, t4, t5, locb, hicb,
    rune1Max, rune2Max, rune3Max, maxRune, surrogateMin, surrogateMax.

Section DecodeArithmetic.

Variable p : list Z.

Lemma decode_1 (b0 : Z) : b0 < 0x80 -> decode (b0 :: p) = b0 :: decode p.
Proof.
  intros H. unfold decode. cbn [decode_loop].
  unfold_utf8_constants. now settle_tests.
Qed.

Lemma decode_2 (h l : Z) :
  2 <= h < 32 -> 0 <= l < 64 ->
  decode (192 + h :: 128 + l :: p) = h * 64 + l :: decode p.
Proof.
  intros Hh Hl.
  assert (R : Z.lor (Z.shiftl (Z.land (192 + h) mask2) 6)
                    (Z.land (128 + l) maskx) = h * 64 + l).
  { bits_to_arith.
    replace ((192 + h) mod 32) with h by div_mod_lia.
    replace ((128 + l) mod 64) with l by div_mod_lia.
    apply (lor_add _ _ 6); [lia | div_mod_lia | lia]. }
  unfold decode. cbn [decode_loop]. unfold decoderune. rewrite R.
  unfold_utf8_constants. now settle_tests.
Qed.

Lemma decode_3 (h m l : Z) :
  0 <= h < 16 -> 0 <= m < 64 -> 0 <= l < 64 ->
  0x7FF < h * 4096 + m * 64 + l ->
  ~ (surrogateMin <= h * 4096 + m * 64 + l <= surrogateMax) ->
  decode (224 + h :: 128 + m :: 128 + l :: p)
  = h * 4096 + m * 64 + l :: decode p.
Proof.
  unfold surrogateMin, surrogateMax. intros Hh Hm Hl Hr Hs.
  assert (R : Z.lor (Z.lor (Z.shiftl (Z.land (224 + h) mask3) 12)
                           (Z.shiftl (Z.land (128 + m) maskx) 6))
                    (Z.land (128 + l) maskx) = h * 4096 + m * 64 + l).
  { bits_to_arith.
    replace ((224 + h) mod 16) with h by div_mod_lia.
    replace ((128 + m) mod 64) with m by div_mod_lia.
    replace ((128 + l) mod 64) with l by div_mod_lia.
    rewrite (lor_add (h * 4096) _ 12); [| lia | div_mod_lia | lia].
    apply (lor_add _ _ 6); [lia | div_mod_lia | lia]. }
  unfold decode. cbn [decode_loop]. unfold decoderune. rewrite R.
  unfold_utf8_constants. now settle_tests.
Qed.

Lemma decode_4 (h a m l : Z) :
  0 <= h < 8 -> 0 <= a < 64 -> 0 <= m < 64 -> 0 <= l < 64 ->
  0xFFFF < h * 262144 + a * 4096 + m * 64 + l <= 0x10FFFF ->
  decode (240 + h :: 128 + a :: 128 + m :: 128 + l :: p)
  = h * 262144 + a * 4096 + m * 64 + l :: decode p.
Proof.
  intros Hh Ha Hm Hl Hr.
  assert (R : Z.lor (Z.lor (Z.lor (Z.shiftl (Z.land (240 + h) mask4) 18)
                                  (Z.shiftl (Z.land (128 + a) maskx) 12))
                           (Z.shiftl (Z.land (128 + m) maskx) 6))
                    (Z.land (128 + l) maskx)
              = h * 262144 + a * 4096 + m * 64 + l).
  { bits_to_arith.
    replace ((240 + h) mod 8) with h by div_mod_lia.
    replace ((128 + a) mod 64) with a by div_mod_lia.
    replace ((128 + m) mod 64) with m by div_mod_lia.
    replace ((128 + l) mod 64) with l by div_mod_lia.
    rewrite (lor_add (h * 262144) _ 18); [| lia | div_mod_lia | lia].
    rewrite (lor_add _ (m * 64) 12); [| lia | div_mod_lia | lia].
    apply (lor_add _ _ 6); [lia | div_mod_lia | lia]. }
  unfold decode. cbn [decode_loop]. unfold decoderune. rewrite R.
  unfold_utf8_constants. now settle_tests.
Qed.

(** Decoding the bytes of a rune that a string can carry gives the rune
    back. *)
Lemma decode_encoderune (r : rune) :
  valid_rune r -> decode (encoderune r ++ p) = r :: decode p.
Proof.
  unfold valid_rune, maxRune, surrogateMin, surrogateMax. intros [H S].
  destruct (Z.le_gt_cases r 0x7F) as [L1|G1].
  { rewrite encoderune_1 by lia. apply decode_1. lia. }
  destruct (Z.le_gt_cases r 0x7FF) as [L2|G2].
  { rewrite encoderune_2 by lia. cbn [app].
    rewrite decode_2 by div_mod_lia. f_equal. div_mod_lia. }
  destruct (Z.le_gt_cases r 0xFFFF) as [L3|G3].
  { rewrite encoderune_3 by (unfold surrogateMin, surrogateMax; lia).
    cbn [app].
    assert (E : (r / 4096) * 4096 + ((r / 64) mod 64) * 64 + r mod 64 = r)
      by div_mod_lia.
    rewrite decode_3; rewrite ?E; try div_mod_lia;
      unfold surrogateMin, surrogateMax; try lia.
    reflexivity. }
  rewrite encoderune_4 by lia. cbn [app].
  assert (E : (r / 262144) * 262144 + ((r / 4096) mod 64) * 4096
              + ((r / 64) mod 64) * 64 + r mod 64 = r) by div_mod_lia.
  rewrite decode_4; rewrite ?E; try div_mod_lia. reflexivity.
Qed.

End DecodeArithmetic.

Section RoundTrip.

Lemma byte_of_ascii_of_byte (b : Z) :
  is_byte b -> byte_of_ascii (ascii_of_byte b) = b.
Proof.
  unfold is_byte, byte_of_ascii, ascii_of_byte. intros H.
  rewrite N_ascii_embedding by lia. lia.
Qed.

Lemma byte_of_ascii_is_byte (c : ascii) : is_byte (byte_of_ascii c).
Proof.
  unfold is_byte, byte_of_ascii. pose proof (N_ascii_bounded c). lia.
Qed.

Lemma bytes_of_string_of_bytes (l : list Z) :
  Forall is_byte l -> bytes_of_string (string_of_bytes l) = l.
Proof.
  induction 1 as [|b l Hb _ IH]; simpl; [reflexivity|].
  now rewrite byte_of_ascii_of_byte, IH.
Qed.

Lemma bytes_of_string_is_byte (s : string) :
  Forall is_byte (bytes_of_string s).
Proof.
  induction s as [|c s IH]; simpl; constructor;
    [apply byte_of_ascii_is_byte | exact IH].
Qed.

Lemma bytes_of_string_app (s1 s2 : string) :
  bytes_of_string (s1 ++ s2) = bytes_of_string s1 ++ bytes_of_string s2.
Proof. induction s1 as [|c s1 IH]; simpl; [reflexivity | now rewrite IH]. Qed.

Lemma valid_rune_dec (r : rune) : {valid_rune r} + {~ valid_rune r}.
Proof.
  unfold valid_rune.
  destruct (Z_le_dec 0 r), (Z_le_dec r maxRune),
    (Z_le_dec surrogateMin r), (Z_le_dec r surrogateMax);
    try (right; lia); left; lia.
Qed.

Lemma valid_runeb_spec (r : rune) : valid_runeb r = true <-> valid_rune r.
Proof.
  unfold valid_runeb, valid_rune.
  rewrite !andb_true_iff, negb_true_iff, andb_false_iff,
    !Z.leb_le, !Z.leb_gt. lia.
Qed.

Lemma valid_runeError : valid_rune runeError.
Proof. apply valid_runeb_spec. reflexivity. Qed.

(** The bytes of any rune are bytes. *)
Lemma encoderune_is_byte (r : rune) : Forall is_byte (encoderune r).
Proof.
  assert (V : forall r, valid_rune r -> Forall is_byte (encoderune r)).
  { clear r. intros r.
    unfold valid_rune, maxRune, surrogateMin, surrogateMax. intros [H S].
    unfold is_byte.
    destruct (Z.le_gt_cases r 0x7F) as [L1|G1].
    { rewrite encoderune_1 by lia. repeat constructor; lia. }
    destruct (Z.le_gt_cases r 0x7FF) as [L2|G2].
    { rewrite encoderune_2 by lia. repeat constructor; div_mod_lia. }
    destruct (Z.le_gt_cases r 0xFFFF) as [L3|G3].
    { rewrite encoderune_3 by (unfold surrogateMin, surrogateMax; lia).
      repeat constructor; div_mod_lia. }
    rewrite encoderune_4 by lia. repeat constructor; div_mod_lia. }
  destruct (valid_rune_dec r) as [Hv|Hn]; [now apply V|].
  rewrite encoderune_invalid by assumption. apply V, valid_runeError.
Qed.

Lemma encode_is_byte (rs : list rune) : Forall is_byte (encode rs).
Proof.
  induction rs as [|r rs IH]; simpl; [constructor|].
  apply Forall_app. split; [apply encoderune_is_byte | exact IH].
Qed.

Lemma decode_encode_app (rs : list rune) (p : list Z) :
  Forall valid_rune rs -> decode (encode rs ++ p) = rs ++ decode p.
Proof.
  induction 1 as [|r rs Hr _ IH]; [reflexivity|].
  unfold encode. simpl flat_map. fold (encode rs).
  now rewrite <- app_assoc, decode_encoderune, IH.
Qed.

Lemma decode_encode (rs : list rune) :
  Forall valid_rune rs -> decode (encode rs) = rs.
Proof.
  intros H. rewrite <- (app_nil_r (encode rs)).
  rewrite decode_encode_app by assumption. apply app_nil_r.
Qed.

(** ASCII bytes decode to themselves. *)
Lemma decode_ascii_app (l p : list Z) :
  Forall (fun b => b < 0x80) l -> decode (l ++ p) = l ++ decode p.
Proof.
  induction 1 as [|b l Hb _ IH]; [reflexivity|].
  simpl app. now rewrite decode_1, IH.
Qed.

(** [[]rune(string(r))] for runes a string can carry. *)
Lemma runes_of_string_of_runes (rs : list rune) :
  Forall valid_rune rs -> runes_of_string (string_of_runes rs) = rs.
Proof.
  intros H. unfold runes_of_string, string_of_runes.
  rewrite bytes_of_string_of_bytes by apply encode_is_byte.
  now apply decode_encode.
Qed.

Lemma sanitize_valid (r : rune) : valid_rune (sanitize r).
Proof.
  unfold sanitize. destruct (valid_runeb r) eqn:E.
  - now apply valid_runeb_spec.
  - apply valid_runeError.
Qed.

Lemma sanitize_id (r : rune) : valid_rune r -> sanitize r = r.
Proof.
  intros H. unfold sanitize. apply valid_runeb_spec in H. now rewrite H.
Qed.

Lemma encoderune_sanitize (r : rune) :
  encoderune (sanitize r) = encoderune r.
Proof.
  unfold sanitize. destruct (valid_runeb r) eqn:E; [reflexivity|].
  symmetry. apply encoderune_invalid.
  intros H. apply valid_runeb_spec in H. congruence.
Qed.

Lemma encode_sanitize (rs : list rune) :
  encode (map sanitize rs) = encode rs.
Proof.
  unfold encode. induction rs as [|r rs IH]; simpl; [reflexivity|].
  now rewrite encoderune_sanitize, IH.
Qed.

(** [[]rune(string(r))] for any runes: the runes no string can carry
    come back as [runeError]. *)
Lemma runes_of_string_of_any_runes (rs : list rune) :
  runes_of_string (string_of_runes rs) = map sanitize rs.
Proof.
  unfold string_of_runes. rewrite <- encode_sanitize.
  apply runes_of_string_of_runes.
  apply Forall_forall. intros x Hx. apply in_map_iff in Hx.
  destruct Hx as (r & <- & _). apply sanitize_valid.
Qed.

Lemma len_sanitize (rs : list rune) : len (map sanitize rs) = len rs.
Proof. unfold len. now rewrite length_map. Qed.

End RoundTrip.

Section DecodedRunes.

Lemma lor_payload_2 (b0 b1 : Z) :
  Z.lor (Z.shiftl (Z.land b0 mask2) 6) (Z.land b1 maskx)
  = (b0 mod 32) * 64 + b1 mod 64.
Proof.
  bits_to_arith. apply (lor_add _ _ 6); [lia | div_mod_lia | div_mod_lia].
Qed.

Lemma lor_payload_3 (b0 b1 b2 : Z) :
  Z.lor (Z.lor (Z.shiftl (Z.land b0 mask3) 12)
               (Z.shiftl (Z.land b1 maskx) 6))
        (Z.land b2 maskx)
  = (b0 mod 16) * 4096 + (b1 mod 64) * 64 + b2 mod 64.
Proof.
  bits_to_arith.
  rewrite (lor_add _ (b1 mod 64 * 64) 12);
    [| lia | div_mod_lia | div_mod_lia].
  apply (lor_add _ _ 6); [lia | div_mod_lia | div_mod_lia].
Qed.

(** Whatever the bytes, [decoderune] yields a rune a string can carry. *)
Lemma decoderune_valid (b0 : Z) (p1 : list Z) :
  valid_rune (fst (decoderune b0 p1)).
Proof.
  unfold decoderune.
  repeat match goal with
    | |- context [if ?c then _ else _] => destruct c eqn:?
    | |- context [match ?l with [] => _ | _ :: _ => _ end] => destruct l
    end;
    cbn [fst]; try apply valid_runeError;
    rewrite ?lor_payload_2, ?lor_payload_3 in *;
    unfold valid_rune, rune1Max, rune2Max, rune3Max, maxRune,
      surrogateMin, surrogateMax in *;
    repeat match goal with
      | H : (_ && _) = true |- _ => apply andb_true_iff in H; destruct H
      | H : negb _ = true |- _ => apply negb_true_iff in H
      | H : (_ && _) = false |- _ => apply andb_false_iff in H
      | H : (_ <? _) = true |- _ => apply Z.ltb_lt in H
      | H : (_ <=? _) = true |- _ => apply Z.leb_le in H
      | H : context [(_ <=? _) = false] |- _ => rewrite !Z.leb_gt in H
      end.
  - div_mod_lia.
  - div_mod_lia.
  - lia.
Qed.

Lemma decode_loop_valid (p : list Z) (skip : nat) :
  Forall is_byte p -> Forall valid_rune (decode_loop skip p).
Proof.
  intros H. revert skip.
  induction H as [|b0 p1 Hb _ IH]; intros skip; cbn [decode_loop];
    [constructor|].
  destruct skip as [|k]; [|apply IH].
  destruct (Z.ltb_spec b0 runeSelf) as [L|G].
  - constructor; [|apply IH].
    unfold is_byte, runeSelf in *.
    unfold valid_rune, maxRune, surrogateMin, surrogateMax. lia.
  - pose proof (decoderune_valid b0 p1) as V.
    destruct (decoderune b0 p1) as [r w]. constructor; [exact V | apply IH].
Qed.

(** Every rune of [[]rune(s)] is one a string can carry. *)
Lemma runes_of_string_valid (s : string) :
  Forall valid_rune (runes_of_string s).
Proof. apply decode_loop_valid, bytes_of_string_is_byte. Qed.

End DecodedRunes.

(* ================================================================= *)
(** ** Buffers hold runes a string can carry *)

Section RunesOk.

Lemma Input_correctPosition (c : Cursor) :
  Input (correctPosition c) = Input c.
Proof. now rewrite correctPosition_clamp. Qed.

Lemma Forall_firstn {A : Type} (P : A -> Prop) (n : nat) (l : list A) :
  Forall P l -> Forall P (firstn n l).
Proof.
  intros H. rewrite <- (firstn_skipn n l) in H.
  now apply Forall_app in H.
Qed.

Lemma Forall_skipn {A : Type} (P : A -> Prop) (n : nat) (l : list A) :
  Forall P l -> Forall P (skipn n l).
Proof.
  intros H. rewrite <- (firstn_skipn n l) in H.
  now apply Forall_app in H.
Qed.

Lemma runes_ok_NewCursor (s : string) (p : option Pointer) (e : bool) :
  runes_ok (NewCursor s p e).
Proof.
  unfold runes_ok, NewCursor.
  destruct e; unfold Start, End, Place; rewrite Input_correctPosition;
    apply runes_of_string_valid.
Qed.

Lemma runes_ok_Replace (c : Cursor) (s : string) : runes_ok (Replace c s).
Proof.
  unfold runes_ok, Replace, End, Place. rewrite Input_correctPosition.
  apply runes_of_string_valid.
Qed.

Lemma runes_ok_Update (c c' : Cursor) (s : string) :
  runes_ok c -> Update c s = Some c' -> runes_ok c'.
Proof.
  unfold runes_ok, Update, slice_to, slice_from. intros H E.
  destruct (_ && _); [|discriminate]. inversion E; subst c'.
  unfold Move. rewrite Input_correctPosition. simpl.
  repeat (apply Forall_app; split);
    auto using Forall_firstn, Forall_skipn, runes_of_string_valid.
Qed.

Lemma runes_ok_Backspace (c c' : Cursor) :
  runes_ok c -> Backspace c = Some c' -> runes_ok c'.
Proof.
  unfold runes_ok, Backspace, slice_to, slice_from. intros H.
  destruct (Position c =? 0); [intros E; inversion E; now subst|].
  destruct (Position c =? len (Input c)).
  - destruct (_ && _); [|discriminate].
    intros E; inversion E; subst c'.
    unfold Move. rewrite Input_correctPosition. simpl.
    auto using Forall_firstn.
  - destruct (_ && _); [|discriminate].
    destruct (_ && _); [|discriminate].
    intros E; inversion E; subst c'.
    unfold Move. rewrite Input_correctPosition. simpl.
    apply Forall_app; auto using Forall_firstn, Forall_skipn.
Qed.

Lemma runes_ok_reconcile (c c1 : Cursor) (line : option (list rune)) :
  runes_ok c -> reconcile c line = Some c1 -> runes_ok c1.
Proof.
  intros H. destruct line as [l|]; simpl.
  - now apply runes_ok_Update.
  - intros E; inversion E; now subst.
Qed.

(** What [Listen] returns as the line is the buffer. *)
Lemma runes_of_Get (c : Cursor) :
  runes_ok c -> runes_of_string (Get c) = Input c.
Proof. intros H. rewrite Get_eq. now apply runes_of_string_of_runes. Qed.

End RunesOk.

(* ================================================================= *)
(** ** The submit key *)

(** C5, the claim as stated, fails: with a non-nil line the buffer and
    the position returned on [KeyEnter] are not those held before the
    call. *)
Lemma Listen_enter_with_line_counterexample :
  Listen sample_keys (mkCursor (Some DefaultCursor) [97] 1 false)
         (Some [98]) 0 (KeyEnter sample_keys)
  = Some (mkCursor (Some DefaultCursor) [97; 98] 2 false,
          ([97; 98], 2, false))
  /\ Listen sample_keys (mkCursor (Some DefaultCursor) [97] 1 false)
            (Some [98]) 0 (KeyEnter sample_keys)
     <> Some (mkCursor (Some DefaultCursor) [97] 1 false,
              ([97], 1, false)).
Proof.
  assert (E : Listen sample_keys (mkCursor (Some DefaultCursor) [97] 1 false)
                     (Some [98]) 0 (KeyEnter sample_keys)
              = Some (mkCursor (Some DefaultCursor) [97; 98] 2 false,
                      ([97; 98], 2, false))) by reflexivity.
  split; [exact E|]. rewrite E. intros H. inversion H.
Qed.

(** C5, amended.  On [KeyEnter] the flag is false and the line and the
    position returned are the buffer and the position the cursor holds
    when [Listen] returns.  With a nil line, for every [pos], these are
    the buffer and the position held before the call and the cursor is
    unchanged; with a non-nil line, the line is first inserted at the
    position as [Update] does, and the buffer and the position are those
    after the insertion. *)
Theorem Listen_enter_returns_buffer (K : KeyCodes) :
  keys_distinct K ->
  (forall c pos,
     runes_ok c ->
     Listen K c None pos (KeyEnter K)
     = Some (c, (Input c, Position c, false)))
  /\ (forall c l pos,
        runes_ok c -> position_ok c ->
        exists c',
          Update c (string_of_runes l) = Some c'
          /\ Input c' = firstn (Z.to_nat (Position c)) (Input c)
                        ++ map sanitize l
                        ++ skipn (Z.to_nat (Position c)) (Input c)
          /\ Listen K c (Some l) pos (KeyEnter K)
             = Some (c', (Input c', Position c', false))).
Proof.
  intros D. destruct (keys_distinct_neq K D) as (N & _).
  split.
  - intros c pos H. rewrite Listen_enter by congruence.
    simpl. now rewrite runes_of_Get.
  - intros c l pos H P.
    destruct (Update c (string_of_runes l)) as [c'|] eqn:U.
    + exists c'. split; [reflexivity|]. split.
      * rewrite Update_in_range in U by assumption.
        inversion U. unfold Move. rewrite Input_correctPosition. simpl.
        now rewrite runes_of_string_of_any_runes.
      * rewrite Listen_enter by congruence. simpl. rewrite U.
        rewrite runes_of_Get; [reflexivity|].
        eapply runes_ok_Update; eauto.
    + rewrite Update_in_range in U by assumption. discriminate.
Qed.

Lemma Listen_enter_returns_buffer_witness :
  Listen sample_keys (mkCursor (Some DefaultCursor) [97; 98] 1 true)
         None 7 (KeyEnter sample_keys)
  = Some (mkCursor (Some DefaultCursor) [97; 98] 1 true,
          ([97; 98], 1, false)).
Proof.
  destruct (Listen_enter_returns_buffer sample_keys sample_keys_distinct)
    as [H _].
  apply (H (mkCursor (Some DefaultCursor) [97; 98] 1 true) 7).
  unfold runes_ok. simpl. repeat constructor; vm_compute; intuition discriminate.
Defined.

(* ================================================================= *)
(** ** Backspace, then the removed rune again *)

Lemma cursor_eta (c : Cursor) :
  mkCursor (Cursor' c) (Input c) (Position c) (erase c) = c.
Proof. now destruct c. Qed.

(** The one-rune string of a rune a string can carry. *)
Lemma runes_of_one_rune_string (x : rune) :
  valid_rune x -> runes_of_string (string_of_runes [x]) = [x].
Proof. intros H. apply runes_of_string_of_runes. now constructor. Qed.

(** C7.  On a cursor with 0 < Position <= len(Input), [Backspace]
    followed by [Update] with the one-rune string of the removed rune
    (any string whose runes are that rune: [string(x)] when a string can
    carry [x]) gives back the cursor as it was, buffer and position; at
    Position 0 [Backspace] removes nothing. *)
Theorem Backspace_then_Update_restores (c : Cursor) :
  position_ok c -> fits_int (Input c) ->
  (0 < Position c ->
   exists x,
     nth_error (Input c) (Z.to_nat (Position c - 1)) = Some x
     /\ (forall s,
           runes_of_string s = [x] ->
           exists c1, Backspace c = Some c1 /\ Update c1 s = Some c)
     /\ (valid_rune x ->
         exists c1,
           Backspace c = Some c1
           /\ Update c1 (string_of_runes [x]) = Some c))
  /\ (Position c = 0 -> Backspace c = Some c).
Proof.
  intros P F. split; [|apply Backspace_at_start].
  intros Hp. unfold position_ok, fits_int in *.
  destruct (split_before_position (Input c) (Position c))
    as (x & Hx & Hsplit); [lia|].
  exists x. split; [exact Hx|].
  assert (R : forall s,
             runes_of_string s = [x] ->
             exists c1, Backspace c = Some c1 /\ Update c1 s = Some c);
    [| split; [exact R | intros V; apply R, runes_of_one_rune_string, V]].
  intros s Hs. eexists. split; [apply Backspace_in_range; [lia | exact F]|].
  set (pre := firstn (Z.to_nat (Position c - 1)) (Input c)) in *.
  set (post := skipn (Z.to_nat (Position c)) (Input c)) in *.
  assert (Lpre : length pre = Z.to_nat (Position c - 1)).
  { unfold pre. rewrite length_firstn. unfold len in P. lia. }
  assert (Lall : len (pre ++ post) = len (Input c) - 1).
  { rewrite len_app. unfold pre, post.
    rewrite len_firstn, len_skipn by lia. lia. }
  rewrite Update_in_range by (unfold position_ok; simpl; lia).
  simpl. rewrite Hs. rewrite <- Lpre.
  rewrite firstn_app, Nat.sub_diag, firstn_all, firstn_O, app_nil_r.
  rewrite skipn_app, Nat.sub_diag, skipn_all, skipn_O. simpl app.
  rewrite <- Hsplit.
  rewrite Move_in_range; simpl.
  - replace (Position c - 1 + len [x]) with (Position c)
      by (unfold len; simpl; lia).
    unfold set_Position. simpl. now rewrite cursor_eta.
  - unfold len in *. simpl. lia.
  - unfold len in *. simpl. lia.
Qed.

Lemma Backspace_then_Update_restores_witness :
  exists c1,
    Backspace (mkCursor (Some PipeCursor) [97; 98; 99] 2 false) = Some c1
    /\ Update c1 "b"
       = Some (mkCursor (Some PipeCursor) [97; 98; 99] 2 false).
Proof.
  destruct (Backspace_then_Update_restores
              (mkCursor (Some PipeCursor) [97; 98; 99] 2 false))
    as [H _].
  - unfold position_ok. vm_compute. split; discriminate.
  - unfold fits_int. vm_compute. discriminate.
  - destruct H as (x & Hx & H & _); [reflexivity|].
    inversion Hx; subst x. apply H. reflexivity.
Defined.

(* ================================================================= *)
(** ** The three markers *)

Lemma map_sanitize_valid (rs : list rune) :
  Forall valid_rune (map sanitize rs).
Proof.
  apply Forall_forall. intros x Hx. apply in_map_iff in Hx.
  destruct Hx as (r & <- & _). apply sanitize_valid.
Qed.

Lemma blockCursor_eq (input : list rune) :
  blockCursor input
  = runes_of_string "\e[7m" ++ map sanitize input ++ runes_of_string "\e[0m".
Proof.
  unfold blockCursor, sprintf_block, runes_of_string.
  rewrite !bytes_of_string_app.
  unfold string_of_runes.
  rewrite bytes_of_string_of_bytes by apply encode_is_byte.
  rewrite <- encode_sanitize.
  rewrite decode_ascii_app
    by (repeat constructor; vm_compute; reflexivity).
  now rewrite decode_encode_app by apply map_sanitize_valid.
Qed.

(** C9.  The markers as the code has them: [DefaultCursor] returns the
    full-block glyph whatever it is given and [PipeCursor] puts the pipe
    glyph before its input; [BlockCursor] wraps its input (as it comes
    back from a string) between the characters backslash, e, [, 7, m and
    backslash, e, [, 0, m: no ESC character (27) is produced, so on "a"
    the result is not ESC [ 7 m a ESC [ 0 m. *)
Theorem markers_as_written :
  (forall r, DefaultCursor r = [0x2588])
  /\ (forall r, PipeCursor r = 124 :: r)
  /\ (forall r,
        BlockCursor r
        = [92; 101; 91; 55; 109] ++ map sanitize r ++ [92; 101; 91; 48; 109])
  /\ BlockCursor [97] = [92; 101; 91; 55; 109; 97; 92; 101; 91; 48; 109]
  /\ BlockCursor [97] <> [27; 91; 55; 109] ++ [97] ++ [27; 91; 48; 109].
Proof.
  split; [reflexivity|]. split; [reflexivity|]. split.
  - intros r. unfold BlockCursor. now rewrite blockCursor_eq.
  - split; [reflexivity|]. intros H. vm_compute in H. discriminate.
Qed.

(* ================================================================= *)
(** ** The first key on a placeholder *)

(** C1.  What the code does on a cursor built from "yes" with
    eraseDefault: the position is 0 and the flag is set; the first
    [Listen] call with the line "n" and a key of the default case inserts
    the line at the position twice, once before the [switch] and once in
    its default case, and leaves the placeholder in place: the buffer is
    "nnyes" and the position 2 (not "n" and 1); the flag returned is
    true.  With a nil line the same key leaves "yes" at position 0. *)
Theorem Listen_first_key_keeps_placeholder (K : KeyCodes)
    (pointer : option Pointer) (pos : Z) (key : rune) :
  other_key K key ->
  let marker := match pointer with Some f => f | None => defaultCursor end in
  NewCursor "yes" pointer true
  = mkCursor (Some marker) [121; 101; 115] 0 true
  /\ Listen K (NewCursor "yes" pointer true) (Some [110]) pos key
     = Some (mkCursor (Some marker) [110; 110; 121; 101; 115] 2 false,
             ([110; 110; 121; 101; 115], 2, true))
  /\ Listen K (NewCursor "yes" pointer true) (Some [110]) pos key
     <> Some (mkCursor (Some marker) [110] 1 false, ([110], 1, true))
  /\ Listen K (NewCursor "yes" pointer true) None pos key
     = Some (mkCursor (Some marker) [121; 101; 115] 0 false,
             ([121; 101; 115], 0, true)).
Proof.
  intros Hk marker.
  assert (E : Listen K (NewCursor "yes" pointer true) (Some [110]) pos key
              = Some (mkCursor (Some marker) [110; 110; 121; 101; 115] 2 false,
                      ([110; 110; 121; 101; 115], 2, true))).
  { rewrite Listen_default by assumption. reflexivity. }
  split; [reflexivity|]. split; [exact E|]. split.
  - rewrite E. intros H. inversion H.
  - rewrite Listen_default by assumption. reflexivity.
Qed.

Lemma Listen_first_key_keeps_placeholder_witness :
  Listen sample_keys (NewCursor "yes" None true) (Some [110]) 1 110
  = Some (mkCursor (Some defaultCursor) [110; 110; 121; 101; 115] 2 false,
          ([110; 110; 121; 101; 115], 2, true)).
Proof.
  apply (Listen_first_key_keeps_placeholder sample_keys None 1 110).
  unfold other_key. simpl. intuition discriminate.
Defined.

(* ================================================================= *)
(** ** When the methods panic *)

(** X1.  [Update] panics (slice bounds out of range) exactly when the
    position is outside [0, len(Input)], whatever the text. *)
Theorem Update_panics_iff_out_of_range (c : Cursor) (s : string) :
  Update c s = None <-> ~ position_ok c.
Proof.
  split.
  - intros H P. rewrite Update_in_range in H by exact P. discriminate.
  - unfold position_ok. intros H. unfold Update.
    destruct (slice_to (Input c) (Position c)) eqn:E; [|reflexivity].
    rewrite slice_to_out_of_range in E by lia. discriminate.
Qed.

Lemma Update_panics_iff_out_of_range_witness :
  Update (mkCursor (Some DefaultCursor) [97; 98] 3 false) "x" = None.
Proof.
  apply (Update_panics_iff_out_of_range
           (mkCursor (Some DefaultCursor) [97; 98] 3 false) "x").
  unfold position_ok. simpl. vm_compute. intros [_ H]. now apply H.
Defined.

(** X2.  [Backspace], on a cursor whose position is an [int] below the
    maximum, panics exactly when the position is outside
    [0, len(Input)]; in particular a position beyond the buffer is not
    clamped first. *)
Theorem Backspace_panics_iff_out_of_range (c : Cursor) :
  Position c <= max_int ->
  (Backspace c = None <-> ~ position_ok c).
Proof.
  intros Hm. split.
  - intros H P. destruct (Backspace_total c P Hm) as (c' & E & _).
    congruence.
  - unfold position_ok. intros H. unfold Backspace.
    pose proof (len_nonneg (Input c)) as Hl.
    destruct (Z.eqb_spec (Position c) 0); [lia|].
    destruct (Z.eqb_spec (Position c) (len (Input c))); [lia|].
    destruct (slice_to (Input c) (wrap_int (Position c - 1)));
      [|reflexivity].
    now rewrite slice_from_out_of_range by lia.
Qed.

Lemma Backspace_panics_iff_out_of_range_witness :
  Backspace (mkCursor (Some DefaultCursor) [97; 98] 3 false) = None.
Proof.
  apply (Backspace_panics_iff_out_of_range
           (mkCursor (Some DefaultCursor) [97; 98] 3 false)).
  - vm_compute. discriminate.
  - unfold position_ok. simpl. vm_compute. intros [_ H]. now apply H.
Defined.

(** X3.  [Format] panics exactly when the marker is nil or the position
    is negative; a position at or beyond the end of the buffer is
    rendered as the end: the buffer followed by the marker of the empty
    slice. *)
Theorem Format_panics_iff_nil_or_negative (c : Cursor) :
  fits_int (Input c) ->
  (Format c = None <-> Cursor' c = None \/ Position c < 0)
  /\ (forall marker,
        Cursor' c = Some marker -> len (Input c) <= Position c ->
        Format c = Some (string_of_runes (Input c ++ marker []))).
Proof.
  intros F. pose proof (len_nonneg (Input c)) as Hl. split.
  - unfold Format. split.
    + intros H. destruct (Cursor' c) as [marker|] eqn:Em; [|now left].
      right. destruct (Z.lt_ge_cases (Position c) 0) as [L|G]; [exact L|].
      exfalso. destruct (Z.lt_ge_cases (Position c) (len (Input c))).
      * destruct (nth_error_in_range (Input c) (Position c)) as [x Hx];
          [lia|].
        rewrite (format_under_caret _ _ marker x) in H; auto; try lia.
        discriminate.
      * rewrite (format_past_end _ _ marker) in H by assumption.
        discriminate.
    + intros [Hn|Hneg]; unfold format.
      * rewrite Hn.
        destruct (Position c <? len (Input c)); [|reflexivity].
        now destruct (slice _ _ _).
      * destruct (Z.ltb_spec (Position c) (len (Input c))); [|lia].
        unfold slice. destruct (Z.leb_spec 0 (Position c)); [lia|].
        reflexivity.
  - intros marker Hm H. now apply format_past_end.
Qed.

Lemma Format_panics_iff_nil_or_negative_witness :
  Format (mkCursor (Some PipeCursor) [97; 98] (-1) false) = None
  /\ Format (mkCursor (Some PipeCursor) [97; 98] 7 false)
     = Some "ab|"%string.
Proof.
  assert (F : fits_int [97; 98]) by (vm_compute; discriminate).
  split.
  - apply (proj1 (Format_panics_iff_nil_or_negative
                    (mkCursor (Some PipeCursor) [97; 98] (-1) false) F)).
    right. reflexivity.
  - apply (proj2 (Format_panics_iff_nil_or_negative
                    (mkCursor (Some PipeCursor) [97; 98] 7 false) F)
                 PipeCursor eq_refl).
    vm_compute. discriminate.
Defined.

(* ================================================================= *)
(** ** What the rendering shows *)

Lemma firstn_repeat_le {A : Type} (x : A) (n m : nat) :
  (n <= m)%nat -> firstn n (repeat x m) = repeat x n.
Proof.
  revert m. induction n as [|n IH]; intros [|m] H; simpl;
    try reflexivity; try lia.
  now rewrite IH by lia.
Qed.

Lemma skipn_repeat_le {A : Type} (x : A) (n m : nat) :
  (n <= m)%nat -> skipn n (repeat x m) = repeat x (m - n).
Proof.
  revert m. induction n as [|n IH]; intros [|m] H; simpl;
    try reflexivity; try lia.
  now rewrite IH by lia.
Qed.

Lemma nth_error_repeat_lt {A : Type} (x : A) (n m : nat) :
  (n < m)%nat -> nth_error (repeat x m) n = Some x.
Proof.
  revert m. induction n as [|n IH]; intros [|m] H; simpl;
    try reflexivity; try lia.
  apply IH. lia.
Qed.

Lemma len_repeat {A : Type} (x : A) (n : nat) : len (repeat x n) = Z.of_nat n.
Proof. unfold len. now rewrite repeat_length. Qed.

(** X4.  On a cursor with a marker and a position in range,
    [FormatMask(mask)] is Position masks, then the marker applied to one
    mask rune (to the empty slice at the end), then a mask for every
    rune after the caret: the marker is never handed a rune of the
    buffer. *)
Theorem FormatMask_shows_masks_only (c : Cursor) (marker : Pointer)
    (mask : rune) :
  Cursor' c = Some marker -> position_ok c -> fits_int (Input c) ->
  (Position c < len (Input c) ->
   FormatMask c mask =
     Some (string_of_runes
             (repeat mask (Z.to_nat (Position c))
              ++ marker [mask]
              ++ repeat mask (length (Input c)
                              - S (Z.to_nat (Position c))))))
  /\ (Position c = len (Input c) ->
      FormatMask c mask =
        Some (string_of_runes (repeat mask (length (Input c))
                               ++ marker []))).
Proof.
  unfold position_ok, fits_int. intros Hm P F.
  rewrite FormatMask_eq. split; intros H.
  - assert (Hn : (Z.to_nat (Position c) < length (Input c))%nat)
      by (unfold len in *; lia).
    rewrite (format_under_caret _ _ marker mask);
      [ | exact Hm | rewrite len_repeat; unfold len in *; lia
        | unfold fits_int; rewrite len_repeat; exact F
        | now apply nth_error_repeat_lt ].
    now rewrite firstn_repeat_le, skipn_repeat_le by lia.
  - apply format_past_end; [exact Hm|].
    rewrite len_repeat. unfold len in *. lia.
Qed.

Lemma FormatMask_shows_masks_only_witness :
  FormatMask (mkCursor (Some PipeCursor) [115; 101; 99] 1 false) 42
  = Some "*|**"%string.
Proof.
  apply (proj1 (FormatMask_shows_masks_only
                  (mkCursor (Some PipeCursor) [115; 101; 99] 1 false)
                  PipeCursor 42 eq_refl
                  ltac:(unfold position_ok; vm_compute; split; discriminate)
                  ltac:(vm_compute; discriminate))).
  reflexivity.
Defined.

(** X5.  With [PipeCursor], on a position in range, [Format] is the
    buffer with the pipe glyph inserted at the position: nothing of the
    buffer is hidden, and the two branches of [format] agree. *)
Theorem Format_PipeCursor_inserts_pipe (c : Cursor) :
  Cursor' c = Some PipeCursor -> position_ok c -> fits_int (Input c) ->
  Format c =
    Some (string_of_runes (firstn (Z.to_nat (Position c)) (Input c)
                           ++ 124 :: skipn (Z.to_nat (Position c)) (Input c))).
Proof.
  unfold position_ok. intros Hm P F. unfold Format.
  destruct (Z.lt_ge_cases (Position c) (len (Input c))) as [L|G].
  - destruct (nth_error_in_range (Input c) (Position c)) as [x Hx]; [lia|].
    rewrite (format_under_caret _ _ PipeCursor x); auto; [|lia].
    now rewrite (skipn_S_nth _ _ _ Hx).
  - rewrite (format_past_end _ _ PipeCursor); auto.
    assert (E : Z.to_nat (Position c) = length (Input c))
      by (unfold len in *; lia).
    now rewrite E, firstn_all, skipn_all.
Qed.

Lemma Format_PipeCursor_inserts_pipe_witness :
  Format (mkCursor (Some PipeCursor) [97; 98; 99] 0 false)
  = Some "|abc"%string.
Proof.
  apply (Format_PipeCursor_inserts_pipe
           (mkCursor (Some PipeCursor) [97; 98; 99] 0 false) eq_refl).
  - unfold position_ok. vm_compute. split; discriminate.
  - vm_compute. discriminate.
Defined.

(** X6.  With [DefaultCursor], on a position in range, [Format] shows
    the full block in place of the rune under the caret, which does not
    appear in the output, and after the buffer when the caret is at the
    end. *)
Theorem Format_DefaultCursor_covers_rune (c : Cursor) :
  Cursor' c = Some DefaultCursor -> position_ok c -> fits_int (Input c) ->
  Format c =
    Some (string_of_runes
            (firstn (Z.to_nat (Position c)) (Input c)
             ++ 0x2588 :: skipn (S (Z.to_nat (Position c))) (Input c))).
Proof.
  unfold position_ok. intros Hm P F. unfold Format.
  destruct (Z.lt_ge_cases (Position c) (len (Input c))) as [L|G].
  - destruct (nth_error_in_range (Input c) (Position c)) as [x Hx]; [lia|].
    now rewrite (format_under_caret _ _ DefaultCursor x); auto; lia.
  - rewrite (format_past_end _ _ DefaultCursor); auto.
    assert (E : Z.to_nat (Position c) = length (Input c))
      by (unfold len in *; lia).
    rewrite E, firstn_all, skipn_all2 by lia. reflexivity.
Qed.

Lemma Format_DefaultCursor_covers_rune_witness :
  Format (mkCursor (Some DefaultCursor) [97; 98; 99] 1 false)
  = Some (string_of_runes [97; 0x2588; 99]).
Proof.
  apply (Format_DefaultCursor_covers_rune
           (mkCursor (Some DefaultCursor) [97; 98; 99] 1 false) eq_refl).
  - unfold position_ok. vm_compute. split; discriminate.
  - vm_compute. discriminate.
Defined.

(* ================================================================= *)
(** ** Construction and reading back *)

Lemma decode_loop_length (p : list Z) (skip : nat) :
  (length (decode_loop skip p) <= length p)%nat.
Proof.
  revert skip. induction p as [|b0 p1 IH]; intros skip; cbn [decode_loop];
    [simpl; lia|].
  destruct skip as [|k].
  - destruct (b0 <? runeSelf).
    + simpl. specialize (IH 0%nat). lia.
    + destruct (decoderune b0 p1) as [r w]. simpl.
      specialize (IH w). lia.
  - specialize (IH k). simpl. lia.
Qed.

Lemma bytes_of_string_length (s : string) :
  length (bytes_of_string s) = String.length s.
Proof. induction s as [|c s IH]; simpl; [reflexivity | now rewrite IH]. Qed.

(** X7.  [NewCursor] stores the runes of the starting input and the
    erase flag, replaces a nil marker by [defaultCursor], and leaves the
    position at 0 when eraseDefault is set and at the number of runes
    otherwise: the byte length [len(startingInput)] written first is
    never kept when it differs, and it is never below the rune count. *)
Theorem NewCursor_fields (startingInput : string) (pointer : option Pointer)
    (eraseDefault : bool) :
  NewCursor startingInput pointer eraseDefault
  = mkCursor
      (Some (match pointer with Some f => f | None => defaultCursor end))
      (runes_of_string startingInput)
      (if eraseDefault then 0 else len (runes_of_string startingInput))
      eraseDefault
  /\ len (runes_of_string startingInput) <= len_string startingInput.
Proof.
  pose proof (len_nonneg (runes_of_string startingInput)) as Hl.
  split.
  - unfold NewCursor. destruct eraseDefault; unfold Start, End;
      rewrite Place_eq; simpl; unfold set_Position; simpl;
      rewrite clamp_in_range by lia; reflexivity.
  - unfold len, len_string, runes_of_string, decode.
    rewrite <- bytes_of_string_length.
    apply inj_le, decode_loop_length.
Qed.

(** X8.  Reading back what was put in: when the starting input, or the
    argument of [Replace], is the string of runes a string can carry,
    [Get] returns that string, whatever the marker, the erase flag or
    the previous buffer. *)
Theorem Get_returns_what_was_stored (rs : list rune) :
  Forall valid_rune rs ->
  (forall pointer e,
     Get (NewCursor (string_of_runes rs) pointer e) = string_of_runes rs)
  /\ (forall c, Get (Replace c (string_of_runes rs)) = string_of_runes rs).
Proof.
  intros V. split.
  - intros pointer e. rewrite Get_eq. unfold NewCursor.
    destruct e; unfold Start, End, Place; rewrite Input_correctPosition;
      simpl; now rewrite runes_of_string_of_runes.
  - intros c. rewrite Get_eq. unfold Replace, End, Place.
    rewrite Input_correctPosition. simpl.
    now rewrite runes_of_string_of_runes.
Qed.

Lemma Get_returns_what_was_stored_witness :
  Get (NewCursor (string_of_runes [121; 0x2588; 115]) None true)
  = string_of_runes [121; 0x2588; 115].
Proof.
  apply (proj1 (Get_returns_what_was_stored [121; 0x2588; 115]
                  ltac:(repeat constructor; vm_compute;
                        intuition discriminate))).
Defined.

(** X9.  [Replace(Get())] keeps the buffer of a cursor that holds runes
    a string can carry and moves the caret to the end: it is [End]. *)
Theorem Replace_Get_is_End (c : Cursor) :
  runes_ok c -> Replace c (Get c) = End c.
Proof.
  intros H. unfold Replace. rewrite runes_of_Get by exact H.
  unfold End. simpl. rewrite !Place_eq. simpl.
  unfold set_Position, set_Input. reflexivity.
Qed.

Lemma Replace_Get_is_End_witness :
  Replace (mkCursor (Some PipeCursor) [97; 98; 99] 1 true)
          (Get (mkCursor (Some PipeCursor) [97; 98; 99] 1 true))
  = mkCursor (Some PipeCursor) [97; 98; 99] 3 true.
Proof.
  apply (Replace_Get_is_End
           (mkCursor (Some PipeCursor) [97; 98; 99] 1 true)).
  unfold runes_ok. simpl.
  repeat constructor; vm_compute; intuition discriminate.
Defined.

(* ================================================================= *)
(** ** Typing, then erasing *)

Lemma Backspace_n_removes (m : option Pointer) (e : bool)
    (pre post b : list rune) :
  fits_int (pre ++ b ++ post) ->
  Backspace_n (length b)
    (mkCursor m (pre ++ b ++ post) (len pre + len b) e)
  = Some (mkCursor m (pre ++ post) (len pre) e).
Proof.
  induction b as [|x b IH] using rev_ind; intros F.
  - simpl. rewrite len_nil, Z.add_0_r. reflexivity.
  - rewrite length_app, Nat.add_comm. cbn [length Nat.add Backspace_n].
    assert (Lb : len (b ++ [x]) = len b + 1)
      by (rewrite len_app; reflexivity).
    assert (Lall : len (pre ++ (b ++ [x]) ++ post)
                   = len pre + len b + 1 + len post)
      by (rewrite !len_app; unfold len; simpl; lia).
    pose proof (len_nonneg pre). pose proof (len_nonneg b).
    pose proof (len_nonneg post).
    unfold fits_int in F. rewrite Lall in F.
    rewrite Backspace_in_range;
      cbn [Input Position Cursor' erase];
      [ | rewrite Lall, Lb; lia | unfold fits_int; rewrite Lall; exact F ].
    rewrite Lb.
    replace (pre ++ (b ++ [x]) ++ post) with ((pre ++ b) ++ x :: post)
      by (rewrite <- !app_assoc; reflexivity).
    replace (Z.to_nat (len pre + (len b + 1) - 1)) with (length (pre ++ b))
      by (rewrite length_app; unfold len; lia).
    replace (Z.to_nat (len pre + (len b + 1)))
      with (S (length (pre ++ b)))
      by (rewrite length_app; unfold len; lia).
    rewrite firstn_app, Nat.sub_diag, firstn_all, firstn_O, app_nil_r.
    replace (skipn (S (length (pre ++ b))) ((pre ++ b) ++ x :: post))
      with post.
    + replace (len pre + (len b + 1) - 1) with (len pre + len b) by lia.
      rewrite <- app_assoc. apply IH.
      unfold fits_int. rewrite !len_app. lia.
    + change (x :: post) with ([x] ++ post). rewrite app_assoc.
      replace (S (length (pre ++ b))) with (length ((pre ++ b) ++ [x]))
        by (rewrite (length_app (pre ++ b) [x]); simpl; lia).
      rewrite skipn_app, Nat.sub_diag, skipn_all, skipn_O. reflexivity.
Qed.

(** X10.  Typing then erasing: on a cursor whose position is in range,
    [Update(t)] followed by as many [Backspace] calls as [t] has runes
    gives back the cursor as it was, buffer and position. *)
Theorem Update_then_Backspaces_restores (c : Cursor) (t : string) :
  position_ok c -> fits_int (Input c ++ runes_of_string t) ->
  exists c1,
    Update c t = Some c1
    /\ Backspace_n (length (runes_of_string t)) c1 = Some c.
Proof.
  unfold position_ok, fits_int. rewrite len_app. intros P F.
  pose proof (len_nonneg (runes_of_string t)) as Hb.
  set (pre := firstn (Z.to_nat (Position c)) (Input c)).
  set (post := skipn (Z.to_nat (Position c)) (Input c)).
  assert (Lpre : len pre = Position c) by (apply len_firstn; exact P).
  assert (Lpost : len post = len (Input c) - Position c)
    by (apply len_skipn; exact P).
  exists (mkCursor (Cursor' c) (pre ++ runes_of_string t ++ post)
                   (len pre + len (runes_of_string t)) (erase c)).
  split.
  - rewrite Update_in_range by exact P. fold pre post.
    rewrite Move_in_range; simpl; rewrite ?len_app, ?Lpre; try lia.
    reflexivity.
  - rewrite Backspace_n_removes.
    + unfold pre, post. rewrite firstn_skipn. fold pre. rewrite Lpre.
      now rewrite cursor_eta.
    + unfold fits_int. rewrite !len_app. lia.
Qed.

Lemma Update_then_Backspaces_restores_witness :
  exists c1,
    Update (mkCursor (Some PipeCursor) [97; 98; 99] 1 false) "xyz" = Some c1
    /\ Backspace_n 3 c1
       = Some (mkCursor (Some PipeCursor) [97; 98; 99] 1 false).
Proof.
  apply (Update_then_Backspaces_restores
           (mkCursor (Some PipeCursor) [97; 98; 99] 1 false) "xyz").
  - unfold position_ok. vm_compute. split; discriminate.
  - vm_compute. discriminate.
Defined.

(* ================================================================= *)
(** ** Moving the caret *)

(** X11.  One step right then one step left brings the caret back,
    except at the end of the buffer, where the step right is clamped
    and the caret ends one rune to the left; one step left then one step
    right brings it back, except at the start, where it ends one rune to
    the right (if there is one).  The buffer is shorter than MaxInt64, so
    that the step right does not overflow. *)
Theorem Move_there_and_back (c : Cursor) :
  position_ok c -> len (Input c) < max_int ->
  (Position c < len (Input c) -> Move (Move c 1) (-1) = c)
  /\ (Position c = len (Input c) ->
      Move (Move c 1) (-1) = set_Position c (Z.max 0 (len (Input c) - 1)))
  /\ (0 < Position c -> Move (Move c (-1)) 1 = c)
  /\ (Position c = 0 ->
      Move (Move c (-1)) 1 = set_Position c (Z.min 1 (len (Input c)))).
Proof.
  unfold position_ok. intros P F.
  assert (W : forall z, -1 <= z <= max_int -> wrap_int z = z)
    by (intros z Hz; apply wrap_int_small;
        unfold min_int, max_int in *; lia).
  assert (M : max_int = 2 ^ 63 - 1) by reflexivity.
  repeat split; intros H; rewrite !Move_eq; simpl; unfold set_Position;
    simpl.
  - rewrite (W (Position c + 1)) by lia.
    rewrite (clamp_in_range _ (Position c + 1)) by lia.
    rewrite W by lia. rewrite clamp_in_range by lia.
    replace (Position c + 1 + -1) with (Position c) by lia.
    apply cursor_eta.
  - rewrite (W (Position c + 1)) by lia.
    replace (clamp (len (Input c)) (Position c + 1)) with (len (Input c))
      by (unfold clamp; lia).
    rewrite W by lia. f_equal. unfold clamp. lia.
  - rewrite (W (Position c + -1)) by lia.
    rewrite (clamp_in_range _ (Position c + -1)) by lia.
    rewrite W by lia. rewrite clamp_in_range by lia.
    replace (Position c + -1 + 1) with (Position c) by lia.
    apply cursor_eta.
  - rewrite (W (Position c + -1)) by lia.
    replace (clamp (len (Input c)) (Position c + -1)) with 0
      by (unfold clamp; lia).
    rewrite W by lia. f_equal. unfold clamp. lia.
Qed.

Lemma Move_there_and_back_witness :
  Move (Move (mkCursor (Some PipeCursor) [97; 98; 99] 3 false) 1) (-1)
  = mkCursor (Some PipeCursor) [97; 98; 99] 2 false.
Proof.
  destruct (Move_there_and_back
              (mkCursor (Some PipeCursor) [97; 98; 99] 3 false))
    as (_ & H & _).
  - unfold position_ok. vm_compute. split; discriminate.
  - vm_compute. reflexivity.
  - apply H. reflexivity.
Defined.

(** X12.  [Move] adds before it clamps, and the addition is that of a
    64-bit [int]: from a position p > 0, a shift above MaxInt64 - p
    overflows to a negative position, so the caret lands at the start of
    the buffer, not at its end. *)
Theorem Move_overflow_lands_at_start (c : Cursor) (shift : Z) :
  0 < Position c <= max_int ->
  max_int - Position c < shift <= max_int ->
  Move c shift = Start c.
Proof.
  unfold max_int. intros P S.
  pose proof (len_nonneg (Input c)) as Hl.
  unfold Start. rewrite Move_eq, Place_eq. f_equal.
  assert (E : wrap_int (Position c + shift) = Position c + shift - 2 ^ 64).
  { unfold wrap_int.
    replace (Position c + shift + 2 ^ 63)
      with ((Position c + shift - 2 ^ 63) + 1 * 2 ^ 64) by lia.
    rewrite Z.mod_add by lia. rewrite Z.mod_small by lia. lia. }
  rewrite E. unfold clamp. lia.
Qed.

Lemma Move_overflow_lands_at_start_witness :
  Move (mkCursor (Some PipeCursor) [97; 98; 99] 1 false)
       9223372036854775807
  = mkCursor (Some PipeCursor) [97; 98; 99] 0 false.
Proof.
  apply (Move_overflow_lands_at_start
           (mkCursor (Some PipeCursor) [97; 98; 99] 1 false)
           9223372036854775807).
  - simpl. vm_compute. split; [reflexivity | discriminate].
  - simpl. vm_compute. split; [reflexivity | discriminate].
Defined.

(* ================================================================= *)
(** ** The listener, key by key *)

Lemma map_sanitize_id (l : list rune) :
  Forall valid_rune l -> map sanitize l = l.
Proof.
  induction 1 as [|x l Hx _ IH]; simpl; [reflexivity|].
  now rewrite sanitize_id, IH.
Qed.

Lemma runes_of_Get_any (c : Cursor) :
  runes_of_string (Get c) = map sanitize (Input c).
Proof. rewrite Get_eq. apply runes_of_string_of_any_runes. Qed.

Lemma Update_marker (c c' : Cursor) (s : string) :
  Update c s = Some c' -> Cursor' c' = Cursor' c.
Proof.
  unfold Update. intros H.
  destruct (slice_to _ _); [|discriminate].
  destruct (slice_from _ _); [|discriminate].
  inversion H. rewrite Move_eq. reflexivity.
Qed.

(** X13.  The arrow keys: with a nil line, on a cursor in range that
    holds runes a string can carry, [KeyBackward] moves the caret one
    rune left, stopping at 0, and keeps the erase flag; [KeyForward]
    moves it one rune right, stopping at the end, and clears the flag;
    neither changes the buffer, and both reply with the buffer, the new
    position and true. *)
Theorem Listen_arrow_keys (K : KeyCodes) (c : Cursor) (pos : Z) :
  keys_distinct K -> runes_ok c -> position_ok c ->
  len (Input c) < max_int ->
  Listen K c None pos (KeyBackward K)
  = Some (mkCursor (Cursor' c) (Input c) (Z.max 0 (Position c - 1)) (erase c),
          (Input c, Z.max 0 (Position c - 1), true))
  /\ Listen K c None pos (KeyForward K)
     = Some (mkCursor (Cursor' c) (Input c)
                      (Z.min (Position c + 1) (len (Input c))) false,
             (Input c, Z.min (Position c + 1) (len (Input c)), true)).
Proof.
  unfold runes_ok, position_ok. intros D V P F.
  destruct (keys_distinct_neq K D)
    as (N1 & N2 & N3 & N4 & N5 & N6 & N7 & N8 & N9 & N10).
  assert (W : forall z, -1 <= z <= max_int -> wrap_int z = z)
    by (intros z Hz; apply wrap_int_small;
        unfold min_int, max_int in *; lia).
  split.
  - rewrite Listen_backward by congruence. simpl. unfold carry_on.
    rewrite Get_eq, Move_eq. simpl.
    rewrite runes_of_string_of_runes by exact V.
    rewrite W by lia. unfold set_Position, clamp.
    replace (Z.max 0 (Z.min (Position c + -1) (len (Input c))))
      with (Z.max 0 (Position c - 1)) by lia.
    reflexivity.
  - rewrite Listen_forward by congruence. simpl. unfold carry_on.
    rewrite Get_eq, Move_eq. simpl.
    rewrite runes_of_string_of_runes by exact V.
    rewrite W by lia. unfold set_Position, clamp. simpl.
    replace (Z.max 0 (Z.min (Position c + 1) (len (Input c))))
      with (Z.min (Position c + 1) (len (Input c))) by lia.
    reflexivity.
Qed.

Lemma Listen_arrow_keys_witness :
  Listen sample_keys (NewCursor "yes" None false) None 0 2
  = Some (mkCursor (Some defaultCursor) [121; 101; 115] 2 false,
          ([121; 101; 115], 2, true)).
Proof.
  apply (proj1 (Listen_arrow_keys sample_keys (NewCursor "yes" None false) 0
                  sample_keys_distinct
                  (runes_ok_NewCursor "yes" None false)
                  (position_ok_NewCursor "yes" None false)
                  ltac:(vm_compute; reflexivity))).
Defined.

(** X14.  [KeyBackspace] on a placeholder: when the erase flag is set
    and the position is in range, the whole buffer is discarded,
    together with the line just inserted if there is one; the buffer is
    empty, the position 0 and the flag cleared. *)
Theorem Listen_backspace_discards_placeholder (K : KeyCodes) (c : Cursor)
    (line : option (list rune)) (pos : Z) :
  keys_distinct K -> position_ok c -> erase c = true ->
  Listen K c line pos (KeyBackspace K)
  = Some (mkCursor (Cursor' c) [] 0 false, ([], 0, true)).
Proof.
  intros D P E.
  destruct (keys_distinct_neq K D) as (N1 & N2 & _ & _ & N5 & _).
  rewrite Listen_backspace by congruence.
  assert (R : exists c1, reconcile c line = Some c1
                         /\ erase c1 = true /\ Cursor' c1 = Cursor' c).
  { destruct line as [l|]; simpl.
    - destruct (Update c (string_of_runes l)) as [c1|] eqn:U.
      + exists c1. split; [reflexivity|]. split.
        * now rewrite (Update_erase _ _ _ U).
        * exact (Update_marker _ _ _ U).
      + rewrite Update_in_range in U by exact P. discriminate.
    - exists c. auto. }
  destruct R as (c1 & R & E1 & M1). rewrite R, E1.
  rewrite Replace_empty. simpl. rewrite M1. reflexivity.
Qed.

Lemma Listen_backspace_discards_placeholder_witness :
  Listen sample_keys (NewCursor "yes" None true) (Some [110]) 0 127
  = Some (mkCursor (Some defaultCursor) [] 0 false, ([], 0, true)).
Proof.
  apply (Listen_backspace_discards_placeholder
           sample_keys (NewCursor "yes" None true) (Some [110]) 0
           sample_keys_distinct (position_ok_NewCursor "yes" None true)
           eq_refl).
Defined.

(** X15.  What [Listen] replies: whenever it returns, the line is the
    buffer of the cursor as it is after the call (a rune no string can
    carry shown as U+FFFD), the position is its position, whatever [pos]
    was passed, and the flag is false exactly when the key is
    [KeyEnter]. *)
Theorem Listen_reply_reports_cursor (K : KeyCodes) (c c' : Cursor)
    (line : option (list rune)) (pos key : Z) (l : list rune) (p : Z)
    (b : bool) :
  keys_distinct K ->
  Listen K c line pos key = Some (c', (l, p, b)) ->
  l = map sanitize (Input c') /\ p = Position c'
  /\ (b = false <-> key = KeyEnter K).
Proof.
  intros D.
  destruct (keys_distinct_neq K D)
    as (N1 & N2 & N3 & N4 & N5 & N6 & N7 & N8 & N9 & N10).
  rewrite <- runes_of_Get_any.
  destruct (key_cases K key) as [C|[C|[C|[C|[C|C]]]]].
  - rewrite Listen_none by assumption.
    destruct (reconcile c line) as [c1|]; [|discriminate].
    unfold carry_on. intros E; inversion E; subst.
    repeat split; try discriminate. congruence.
  - rewrite Listen_enter by tauto.
    destruct (reconcile c line) as [c1|]; [|discriminate].
    intros E; inversion E; subst. repeat split; tauto.
  - rewrite Listen_backspace by tauto.
    destruct (reconcile c line) as [c1|]; [|discriminate].
    destruct (Backspace _) as [c2|]; [|discriminate].
    unfold carry_on. intros E; inversion E; subst.
    repeat split; try discriminate. tauto.
  - rewrite Listen_forward by tauto.
    destruct (reconcile c line) as [c1|]; [|discriminate].
    unfold carry_on. intros E; inversion E; subst.
    repeat split; try discriminate. tauto.
  - rewrite Listen_backward by tauto.
    destruct (reconcile c line) as [c1|]; [|discriminate].
    unfold carry_on. intros E; inversion E; subst.
    repeat split; try discriminate. tauto.
  - assert (C' : key <> KeyEnter K)
      by (unfold other_key in C; simpl in C; intuition congruence).
    rewrite Listen_default by assumption.
    destruct (reconcile c line) as [c1|]; [|discriminate].
    destruct (if erase c1 then _ else _) as [c2|]; [|discriminate].
    unfold carry_on. intros E; inversion E; subst.
    repeat split; try discriminate. tauto.
Qed.

Lemma Listen_reply_reports_cursor_witness :
  [97; 98] = map sanitize [97; 98] /\ 2 = 2
  /\ (false = false <-> KeyEnter sample_keys = KeyEnter sample_keys).
Proof.
  apply (Listen_reply_reports_cursor sample_keys
           (mkCursor (Some DefaultCursor) [97] 1 false)
           (mkCursor (Some DefaultCursor) [97; 98] 2 false)
           (Some [98]) 0 (KeyEnter sample_keys) [97; 98] 2 false
           sample_keys_distinct eq_refl).
Defined.

(** X16.  A key of the default case in editing mode: when the erase
    flag is clear, the line is inserted once, at the position, and the
    caret moves past it; the reply is the new buffer, the new position
    and true. *)
Theorem Listen_editing_inserts_line_once (K : KeyCodes) (c : Cursor)
    (l : list rune) (pos key : Z) :
  other_key K key -> erase c = false ->
  position_ok c -> runes_ok c -> Forall valid_rune l ->
  fits_int (Input c ++ l) ->
  Listen K c (Some l) pos key
  = Some (mkCursor (Cursor' c)
            (firstn (Z.to_nat (Position c)) (Input c) ++ l
             ++ skipn (Z.to_nat (Position c)) (Input c))
            (Position c + len l) false,
          (firstn (Z.to_nat (Position c)) (Input c) ++ l
           ++ skipn (Z.to_nat (Position c)) (Input c),
           Position c + len l, true)).
Proof.
  unfold position_ok, runes_ok, fits_int. rewrite len_app.
  intros Hk E P V Vl F. pose proof (len_nonneg l) as Hl.
  rewrite Listen_default by exact Hk. simpl.
  rewrite Update_in_range by exact P.
  rewrite runes_of_string_of_runes by exact Vl.
  rewrite Move_in_range; simpl;
    [ | rewrite !len_app, len_firstn, len_skipn by lia; lia | lia ].
  rewrite E. unfold carry_on. rewrite Get_eq. simpl.
  rewrite runes_of_string_of_runes;
    [unfold set_Position, set_Input; simpl; now rewrite E|].
  repeat (apply Forall_app; split);
    auto using Forall_firstn, Forall_skipn.
Qed.

Lemma Listen_editing_inserts_line_once_witness :
  Listen sample_keys (mkCursor (Some DefaultCursor) [97; 98] 1 false)
         (Some [110]) 0 110
  = Some (mkCursor (Some DefaultCursor) [97; 110; 98] 2 false,
          ([97; 110; 98], 2, true)).
Proof.
  apply (Listen_editing_inserts_line_once sample_keys
           (mkCursor (Some DefaultCursor) [97; 98] 1 false) [110] 0 110).
  - unfold other_key. simpl. intuition discriminate.
  - reflexivity.
  - unfold position_ok. vm_compute. split; discriminate.
  - unfold runes_ok. simpl.
    repeat constructor; vm_compute; intuition discriminate.
  - repeat constructor; vm_compute; intuition discriminate.
  - vm_compute. discriminate.
Defined.

(* ================================================================= *)
(** ** What every cursor built through the methods satisfies *)

Section Reachable.

Variable K : KeyCodes.

Lemma Backspace_marker (c c' : Cursor) :
  Backspace c = Some c' -> Cursor' c' = Cursor' c.
Proof.
  unfold Backspace.
  destruct (Position c =? 0); [intros E; inversion E; now subst|].
  destruct (Position c =? len (Input c)).
  - destruct (slice_to _ _); [|discriminate].
    intros E; inversion E. rewrite Move_eq. reflexivity.
  - destruct (slice_to _ _); [|discriminate].
    destruct (slice_from _ _); [|discriminate].
    intros E; inversion E. rewrite Move_eq. reflexivity.
Qed.

Lemma reconcile_marker (c c1 : Cursor) (line : option (list rune)) :
  reconcile c line = Some c1 -> Cursor' c1 = Cursor' c.
Proof.
  destruct line as [l|]; simpl.
  - apply Update_marker.
  - intros E; inversion E; now subst.
Qed.

(** What [Listen] keeps: the marker, and the validity of the runes. *)
Lemma Listen_keeps (c c' : Cursor) (line : option (list rune))
    (pos key : Z) (out : reply) :
  Listen K c line pos key = Some (c', out) ->
  Cursor' c' = Cursor' c /\ (runes_ok c -> runes_ok c').
Proof.
  destruct (key_cases K key) as [C|[C|[C|[C|[C|C]]]]].
  - rewrite Listen_none by assumption.
    destruct (reconcile c line) as [c1|] eqn:R; [|discriminate].
    unfold carry_on. intros E; inversion E; subst. split.
    + eapply reconcile_marker; eauto.
    + intros V. eapply runes_ok_reconcile; eauto.
  - rewrite Listen_enter by tauto.
    destruct (reconcile c line) as [c1|] eqn:R; [|discriminate].
    intros E; inversion E; subst. split.
    + eapply reconcile_marker; eauto.
    + intros V. eapply runes_ok_reconcile; eauto.
  - rewrite Listen_backspace by tauto.
    destruct (reconcile c line) as [c1|] eqn:R; [|discriminate].
    destruct (Backspace _) as [c2|] eqn:B; [|discriminate].
    unfold carry_on. intros E; inversion E; subst. split.
    + rewrite (Backspace_marker _ _ B), <- (reconcile_marker _ _ _ R).
      destruct (erase c1); [now rewrite Replace_empty | reflexivity].
    + intros V. eapply runes_ok_Backspace; [|exact B].
      destruct (erase c1); [apply runes_ok_Replace|].
      eapply runes_ok_reconcile; eauto.
  - rewrite Listen_forward by tauto.
    destruct (reconcile c line) as [c1|] eqn:R; [|discriminate].
    unfold carry_on. intros E; inversion E; subst. split.
    + rewrite Move_eq. simpl. eapply reconcile_marker; eauto.
    + intros V. unfold runes_ok, Move. rewrite Input_correctPosition.
      simpl. eapply runes_ok_reconcile; eauto.
  - rewrite Listen_backward by tauto.
    destruct (reconcile c line) as [c1|] eqn:R; [|discriminate].
    unfold carry_on. intros E; inversion E; subst. split.
    + rewrite Move_eq. simpl. eapply reconcile_marker; eauto.
    + intros V. unfold runes_ok, Move. rewrite Input_correctPosition.
      simpl. eapply runes_ok_reconcile; eauto.
  - rewrite Listen_default by assumption.
    destruct (reconcile c line) as [c1|] eqn:R; [|discriminate].
    destruct (erase c1).
    + destruct (Update _ _) as [c2|] eqn:U; [|discriminate].
      unfold carry_on. intros E; inversion E; subst. split.
      * rewrite (Update_marker _ _ _ U). simpl.
        eapply reconcile_marker; eauto.
      * intros V. eapply runes_ok_Update; [|exact U].
        unfold runes_ok. simpl. eapply runes_ok_reconcile; eauto.
    + unfold carry_on. intros E; inversion E; subst. split.
      * eapply reconcile_marker; eauto.
      * intros V. eapply runes_ok_reconcile; eauto.
Qed.

Lemma apply_op_keeps (c c' : Cursor) (o : op) :
  apply_op K c o = Some c' ->
  Cursor' c' = Cursor' c /\ (runes_ok c -> runes_ok c').
Proof.
  destruct o; simpl; intros E;
    try (inversion E; subst;
         unfold Replace, Start, End, Place, Move; split;
         [ rewrite correctPosition_clamp; reflexivity
         | unfold runes_ok; rewrite Input_correctPosition; simpl;
           auto using runes_of_string_valid ]).
  - split; [exact (Update_marker _ _ _ E)|].
    intros V. eapply runes_ok_Update; eauto.
  - split; [exact (Backspace_marker _ _ E)|].
    intros V. eapply runes_ok_Backspace; eauto.
  - destruct (Listen K c line pos key) as [[c1 out]|] eqn:L;
      [|discriminate].
    inversion E; subst. simpl. eapply Listen_keeps; eauto.
Qed.

Lemma run_keeps (ops : list op) (c c' : Cursor) :
  run K ops c = Some c' ->
  Cursor' c' = Cursor' c /\ (runes_ok c -> runes_ok c').
Proof.
  revert c. induction ops as [|o ops IH]; simpl; intros c E.
  - inversion E; subst. auto.
  - destruct (apply_op K c o) as [c1|] eqn:A; [|discriminate].
    destruct (apply_op_keeps _ _ _ A) as [M1 V1].
    destruct (IH _ E) as [M2 V2]. split; [congruence | auto].
Qed.

End Reachable.

(** The line and the position of a reply are read off the cursor that
    [Listen] leaves. *)
Lemma Listen_reply_of_cursor (K : KeyCodes) (c c' : Cursor)
    (line : option (list rune)) (pos key : Z) (l : list rune) (p : Z)
    (b : bool) :
  Listen K c line pos key = Some (c', (l, p, b)) ->
  l = runes_of_string (Get c') /\ p = Position c'.
Proof.
  destruct (key_cases K key) as [C|[C|[C|[C|[C|C]]]]].
  - rewrite Listen_none by assumption.
    destruct (reconcile c line) as [c1|]; [|discriminate].
    unfold carry_on. intros E; inversion E; subst. auto.
  - rewrite Listen_enter by tauto.
    destruct (reconcile c line) as [c1|]; [|discriminate].
    intros E; inversion E; subst. auto.
  - rewrite Listen_backspace by tauto.
    destruct (reconcile c line) as [c1|]; [|discriminate].
    destruct (Backspace _) as [c2|]; [|discriminate].
    unfold carry_on. intros E; inversion E; subst. auto.
  - rewrite Listen_forward by tauto.
    destruct (reconcile c line) as [c1|]; [|discriminate].
    unfold carry_on. intros E; inversion E; subst. auto.
  - rewrite Listen_backward by tauto.
    destruct (reconcile c line) as [c1|]; [|discriminate].
    unfold carry_on. intros E; inversion E; subst. auto.
  - rewrite Listen_default by assumption.
    destruct (reconcile c line) as [c1|]; [|discriminate].
    destruct (if erase c1 then _ else _) as [c2|]; [|discriminate].
    unfold carry_on. intros E; inversion E; subst. auto.
Qed.

(** X17.  The buffer only ever holds runes a string can carry: it does
    after [NewCursor], and [Place], [Move], [Start], [End], [Update],
    [Replace], [Backspace] and [Listen], alone or in sequence, keep it
    so; on a cursor built that way [Listen] replies with the buffer
    itself. *)
Theorem buffer_holds_string_runes (K : KeyCodes) :
  (forall s p e, runes_ok (NewCursor s p e))
  /\ (forall ops c c',
        runes_ok c -> run K ops c = Some c' -> runes_ok c')
  /\ (forall ops s p e c' line pos key c'' l q b,
        run K ops (NewCursor s p e) = Some c' ->
        Listen K c' line pos key = Some (c'', (l, q, b)) ->
        l = Input c'').
Proof.
  split; [exact runes_ok_NewCursor|]. split.
  - intros ops c c' V R. now apply (proj2 (run_keeps K ops c c' R)).
  - intros ops s p e c' line pos key c'' l q b R L.
    assert (V : runes_ok c'').
    { apply (proj2 (Listen_keeps K _ _ _ _ _ _ L)).
      apply (proj2 (run_keeps K _ _ _ R)), runes_ok_NewCursor. }
    destruct (Listen_reply_of_cursor K _ _ _ _ _ _ _ _ L) as [-> _].
    now apply runes_of_Get.
Qed.

Lemma buffer_holds_string_runes_witness :
  runes_ok (mkCursor (Some defaultCursor) [110; 111] 1 false).
Proof.
  assert (R : run sample_keys [OpListen (Some [110]) 0 110; OpStart;
                               OpReplace "no"; OpListen None 0 2]
                  (NewCursor "yes" None false)
              = Some (mkCursor (Some defaultCursor) [110; 111] 1 false))
    by reflexivity.
  destruct (buffer_holds_string_runes sample_keys) as (H1 & H2 & _).
  exact (H2 _ _ _ (H1 "yes"%string None false) R).
Defined.

(** X18.  The marker is fixed at construction: no method replaces it,
    and after [NewCursor] it is never nil.  So on every cursor built
    from [NewCursor] by the methods (its buffer being a slice) [Format]
    and [FormatMask] return, whatever the calls were. *)
Theorem rendering_never_panics_after_NewCursor (K : KeyCodes) :
  (forall ops c c', run K ops c = Some c' -> Cursor' c' = Cursor' c)
  /\ (forall ops s p e c',
        run K ops (NewCursor s p e) = Some c' ->
        fits_int (Input c') ->
        (exists out, Format c' = Some out)
        /\ (forall mask, exists out, FormatMask c' mask = Some out)).
Proof.
  split.
  - intros ops c c' R. exact (proj1 (run_keeps K ops c c' R)).
  - intros ops s p e c' R F.
    assert (P : position_ok c')
      by (eapply run_position_ok; [apply position_ok_NewCursor | exact R]).
    assert (M : exists marker, Cursor' c' = Some marker).
    { rewrite (proj1 (run_keeps K _ _ _ R)).
      unfold NewCursor. destruct e; unfold Start, End, Place;
        rewrite correctPosition_clamp; simpl; eauto. }
    destruct M as [marker M]. unfold position_ok, fits_int in *.
    assert (G : forall a, len a = len (Input c') ->
                          exists out, format a c' = Some out).
    { intros a La.
      destruct (Z.lt_ge_cases (Position c') (len a)) as [L|G].
      - destruct (nth_error_in_range a (Position c')) as [x Hx]; [lia|].
        rewrite (format_under_caret a c' marker x); eauto; try lia.
        unfold fits_int. lia.
      - rewrite (format_past_end a c' marker); eauto. }
    split.
    + apply G. reflexivity.
    + intros mask. rewrite FormatMask_eq. apply G. apply len_repeat.
Qed.

Lemma rendering_never_panics_after_NewCursor_witness :
  exists out,
    Format (mkCursor (Some defaultCursor) [110; 111] 1 false) = Some out.
Proof.
  assert (R : run sample_keys [OpListen (Some [110]) 0 110; OpStart;
                               OpReplace "no"; OpListen None 0 2]
                  (NewCursor "yes" None false)
              = Some (mkCursor (Some defaultCursor) [110; 111] 1 false))
    by reflexivity.
  destruct (rendering_never_panics_after_NewCursor sample_keys) as (_ & H).
  apply (H _ _ _ _ _ R). vm_compute. discriminate.
Defined.

(* ================================================================= *)
(** ** The description of a cursor *)

(** X19.  [String] describes a cursor built by [NewCursor] with no
    marker and no erasing from the string of runes a string can carry:
    the full block, then the input as it was given, then the number of
    its runes in decimal.  [String] panics only on a nil marker; it
    prints any position, in range or not. *)
Theorem Cursor_String_after_NewCursor (rs : list rune) :
  Forall valid_rune rs ->
  Cursor_String (NewCursor (string_of_runes rs) None false)
  = Some ("Cursor: " ++ block_glyph ++ ", Input " ++ string_of_runes rs
          ++ ", Position "
          ++ DecimalString.NilZero.string_of_int
               (Z.to_int (Z.of_nat (length rs))))%string
  /\ (forall c, Cursor_String c = None <-> Cursor' c = None).
Proof.
  intros V. split.
  - pose proof (len_nonneg rs) as Hl.
    unfold Cursor_String, NewCursor, End.
    rewrite Place_eq. simpl.
    rewrite runes_of_string_of_runes by exact V.
    rewrite clamp_in_range by lia. reflexivity.
  - intros c. unfold Cursor_String.
    destruct (Cursor' c); simpl; split; intros H;
      try discriminate; reflexivity.
Qed.

Lemma Cursor_String_after_NewCursor_witness :
  Cursor_String (NewCursor "yes" None false)
  = Some ("Cursor: " ++ block_glyph ++ ", Input yes, Position 3")%string.
Proof.
  apply (proj1 (Cursor_String_after_NewCursor [121; 101; 115]
                  ltac:(repeat constructor; vm_compute;
                        intuition discriminate))).
Defined.

(* ================================================================= *)
(** ** Inserting nothing, inserting twice *)

(** The cursor after an insertion that stays within [int]. *)
Lemma Update_runes (c : Cursor) (rs : list rune) :
  position_ok c -> Forall valid_rune rs -> fits_int (Input c ++ rs) ->
  Update c (string_of_runes rs)
  = Some (mkCursor (Cursor' c)
            (firstn (Z.to_nat (Position c)) (Input c) ++ rs
             ++ skipn (Z.to_nat (Position c)) (Input c))
            (Position c + len rs) (erase c)).
Proof.
  unfold position_ok, fits_int. rewrite len_app. intros P V F.
  pose proof (len_nonneg rs) as Hl.
  rewrite Update_in_range by exact P.
  rewrite runes_of_string_of_runes by exact V.
  rewrite Move_in_range; simpl; [reflexivity | | lia].
  rewrite !len_app, len_firstn, len_skipn by lia. lia.
Qed.

(** X20.  Inserting nothing: on a cursor whose position is in range,
    [Update("")] returns the cursor unchanged, so a [Listen] call with an
    empty, non-nil line does what it does with a nil line. *)
Theorem Update_empty_changes_nothing (c : Cursor) :
  position_ok c -> fits_int (Input c) ->
  Update c "" = Some c
  /\ (forall K pos key,
        Listen K c (Some []) pos key = Listen K c None pos key).
Proof.
  intros P F.
  assert (U : Update c "" = Some c).
  { change ""%string with (string_of_runes []).
    rewrite Update_runes; [ | exact P | constructor
                            | now rewrite app_nil_r ].
    simpl app. rewrite firstn_skipn, len_nil, Z.add_0_r.
    now rewrite cursor_eta. }
  split; [exact U|].
  intros K pos key. unfold Listen.
  change (string_of_line (Some [])) with ""%string.
  change (string_of_line None) with ""%string.
  now rewrite U.
Qed.

Lemma Update_empty_changes_nothing_witness :
  Update (mkCursor (Some PipeCursor) [97; 98] 1 true) ""
  = Some (mkCursor (Some PipeCursor) [97; 98] 1 true).
Proof.
  apply (proj1 (Update_empty_changes_nothing
                  (mkCursor (Some PipeCursor) [97; 98] 1 true)
                  ltac:(unfold position_ok; vm_compute; split; discriminate)
                  ltac:(vm_compute; discriminate))).
Defined.

(** X21.  Inserting twice: on a cursor whose position is in range, two
    [Update] calls in a row do what one call does with the two texts put
    together (texts given as the strings of runes a string can carry). *)
Theorem Update_twice_is_Update_of_both (c : Cursor) (r1 r2 : list rune) :
  position_ok c -> Forall valid_rune r1 -> Forall valid_rune r2 ->
  fits_int (Input c ++ r1 ++ r2) ->
  exists c1,
    Update c (string_of_runes r1) = Some c1
    /\ Update c1 (string_of_runes r2)
       = Update c (string_of_runes (r1 ++ r2)).
Proof.
  unfold position_ok, fits_int. rewrite !len_app. intros P V1 V2 F.
  pose proof (len_nonneg r1) as H1. pose proof (len_nonneg r2) as H2.
  set (pre := firstn (Z.to_nat (Position c)) (Input c)).
  set (post := skipn (Z.to_nat (Position c)) (Input c)).
  assert (Lpre : len pre = Position c) by (apply len_firstn; exact P).
  assert (Lpost : len post = len (Input c) - Position c)
    by (apply len_skipn; exact P).
  eexists. split.
  - apply Update_runes; [exact P | exact V1 |].
    unfold fits_int. rewrite len_app. lia.
  - fold pre post.
    rewrite (Update_runes c (r1 ++ r2));
      [ | exact P | now apply Forall_app
        | unfold fits_int; rewrite !len_app; lia ].
    fold pre post.
    rewrite Update_runes;
      [ | unfold position_ok; simpl; rewrite !len_app; lia | exact V2
        | unfold fits_int; simpl; rewrite !len_app; lia ].
    simpl.
    assert (E : Z.to_nat (Position c + len r1) = length (pre ++ r1))
      by (rewrite length_app; unfold len in *; lia).
    rewrite E.
    replace (pre ++ r1 ++ post) with ((pre ++ r1) ++ post)
      by (now rewrite <- app_assoc).
    rewrite firstn_app, Nat.sub_diag, firstn_all, firstn_O, app_nil_r.
    rewrite skipn_app, Nat.sub_diag, skipn_all, skipn_O. simpl app.
    rewrite len_app, <- !app_assoc, Z.add_assoc. reflexivity.
Qed.

Lemma Update_twice_is_Update_of_both_witness :
  exists c1,
    Update (mkCursor (Some PipeCursor) [97; 98] 1 false)
           (string_of_runes [120]) = Some c1
    /\ Update c1 (string_of_runes [121; 122])
       = Update (mkCursor (Some PipeCursor) [97; 98] 1 false)
                (string_of_runes ([120] ++ [121; 122])).
Proof.
  apply (Update_twice_is_Update_of_both
           (mkCursor (Some PipeCursor) [97; 98] 1 false) [120] [121; 122]).
  - unfold position_ok. vm_compute. split; discriminate.
  - repeat constructor; vm_compute; intuition discriminate.
  - repeat constructor; vm_compute; intuition discriminate.
  - vm_compute. discriminate.
Defined.
